(** * bible-verses: the verse screen of App.js

    A shallow embedding of the three builds of [App.js] (the named file and
    the two older builds kept next to it): the verse fetch, the daily
    notification scheduler and the stage machine of the screen.

    Conventions.
    - Strings are byte strings holding UTF-8.
    - A JavaScript [Date] is its time value, a [Z] of milliseconds since the
      epoch, or no time value for an Invalid Date.  Local time is UTC plus the
      offset the time zone [tz] of the device has in force, which changes with
      the clocks (daylight saving).
    - The SDK calls (AsyncStorage, expo-notifications) resolve; their
      rejection is not modelled.  [fetch] and [res.json()] may reject.
    - The functions declared inside [App] close over the [verse] of the
      render that created them; that verse is a parameter of their models.
    - Every [new Date()] is a reading of the clock of its own. *)

From Stdlib Require Import ZArith String Ascii List Lia Bool.
From stdpp Require Import base option list strings gmap.
Import ListNotations.
Open Scope Z_scope.

(** ** Data model *)

(** [useState({ text: '', reference: '' })] *)
Record Verse := { text : string; reference : string }.

(** An entry of [RNLocalize.getLocales()]. *)
Record Locale := { languageCode : string }.

(** The [trigger] argument of [scheduleNotificationAsync]:
    [{ type: 'date', date, channelId }] in the one-shot builds,
    [{ hour, minute, repeats, channelId }] in the repeating build. *)
Inductive Trigger :=
| DateTrigger (date : option Z) (channelId : string)   (* [None]: an Invalid Date *)
| DailyTrigger (hour minute : Z) (repeats : bool) (channelId : string).

(** The request passed to [scheduleNotificationAsync]. *)
Record Notification := {
  title : string;
  body : string;
  data_reference : string;
  trigger : Trigger
}.

(** The two scheduler builds: [scheduleIfNeeded] (one-shot date trigger) and
    [scheduleDailyNotification] (repeating trigger). *)
Inductive Build := OneShot | Repeating.

#[global] Instance Verse_eq_dec : EqDecision Verse.
Proof. solve_decision. Defined.
#[global] Instance Trigger_eq_dec : EqDecision Trigger.
Proof. solve_decision. Defined.
#[global] Instance Notification_eq_dec : EqDecision Notification.
Proof. solve_decision. Defined.

(** ** The JavaScript built-ins the source relies on *)

Module JS.

(** What [JSON.parse] can produce.  A number is kept as the text that
    [ToString] gives for it: the source only ever prints numbers. *)
#[warnings="-register-all"]
Inductive Json :=
| JNull
| JBool (b : bool)
| JNum (shown : string)
| JStr (s : string)
| JArr (items : list Json)
| JObj (fields : list (string * Json)).

Inductive Value := VUndefined | VJson (j : Json).

Inductive Exn :=
| TypeError
| SyntaxError        (* [res.json()] on a body that is not JSON *)
| NetworkFailure.    (* [fetch] rejected *)

Inductive Completion (A : Type) :=
| Normal (a : A)
| Throw (e : Exn).
Arguments Normal {A} a.
Arguments Throw {A} e.

(** Own property of a parsed object; with a repeated key the last
    occurrence wins. *)
Fixpoint ownProperty (fields : list (string * Json)) (k : string) : option Json :=
  match fields with
  | [] => None
  | (k', v) :: rest =>
      match ownProperty rest k with
      | Some w => Some w
      | None => if String.eqb k' k then Some v else None
      end
  end.

(** [v.k] for the property names the source reads ([random_verse], [text],
    [book], [chapter], [verse]), none of which lives on a built-in
    prototype: it throws on [undefined] and [null], finds own properties of
    an object and is [undefined] on everything else. *)
Definition Get (v : Value) (k : string) : Completion Value :=
  match v with
  | VUndefined | VJson JNull => Throw TypeError
  | VJson (JObj fields) =>
      Normal (match ownProperty fields k with
              | Some j => VJson j
              | None => VUndefined
              end)
  | VJson _ => Normal VUndefined
  end.

(** [a ?? b] *)
Definition nullish (a b : Value) : Value :=
  match a with
  | VUndefined | VJson JNull => b
  | _ => a
  end.

(** [ToString] of a parsed value, as a template literal applies it.
    [None] is the TypeError of an object whose own [toString] entry hides
    [Object.prototype.toString] (an entry read from JSON is never
    callable, and [valueOf] then gives no primitive). *)
Fixpoint ToStringJson (j : Json) : option string :=
  match j with
  | JNull => Some "null"
  | JBool b => Some (if b then "true" else "false")
  | JNum shown => Some shown
  | JStr s => Some s
  | JArr items =>
      (fix join (l : list Json) : option string :=
         match l with
         | [] => Some ""
         | x :: r =>
             match (match x with JNull => Some "" | _ => ToStringJson x end) with
             | None => None
             | Some sx =>
                 match r with
                 | [] => Some sx
                 | _ :: _ =>
                     match join r with
                     | None => None
                     | Some sr => Some (sx +:+ "," +:+ sr)
                     end
                 end
             end
         end) items
  | JObj fields =>
      match ownProperty fields "toString" with
      | Some _ => None
      | None => Some "[object Object]"
      end
  end.

Definition ToString (v : Value) : Completion string :=
  match v with
  | VUndefined => Normal "undefined"
  | VJson j =>
      match ToStringJson j with
      | Some s => Normal s
      | None => Throw TypeError
      end
  end.

(** *** [String.prototype.trim] *)

(** The UTF-8 encodings of WhiteSpace and LineTerminator code points. *)
Definition whiteSpace : list (list nat) :=
  [ [9]; [10]; [11]; [12]; [13]; [32];
    [194; 160];                       (* U+00A0 *)
    [225; 154; 128];                  (* U+1680 *)
    [226; 128; 128]; [226; 128; 129]; [226; 128; 130]; [226; 128; 131];
    [226; 128; 132]; [226; 128; 133]; [226; 128; 134]; [226; 128; 135];
    [226; 128; 136]; [226; 128; 137]; [226; 128; 138];  (* U+2000..U+200A *)
    [226; 128; 168]; [226; 128; 169]; (* U+2028, U+2029 *)
    [226; 128; 175];                  (* U+202F *)
    [226; 129; 159];                  (* U+205F *)
    [227; 128; 128];                  (* U+3000 *)
    [239; 187; 191] ]%nat.            (* U+FEFF *)

Fixpoint stripPrefix (p l : list nat) : option (list nat) :=
  match p, l with
  | [], _ => Some l
  | a :: p', b :: l' => if Nat.eqb a b then stripPrefix p' l' else None
  | _ :: _, [] => None
  end.

(** Removes one leading code point out of [codes], if there is one. *)
Fixpoint stripOne (codes : list (list nat)) (l : list nat) : option (list nat) :=
  match codes with
  | [] => None
  | c :: rest =>
      match stripPrefix c l with
      | Some l' => Some l'
      | None => stripOne rest l
      end
  end.

Fixpoint stripAll (fuel : nat) (codes : list (list nat)) (l : list nat) : list nat :=
  match fuel with
  | O => l
  | S fuel' =>
      match stripOne codes l with
      | Some l' => stripAll fuel' codes l'
      | None => l
      end
  end.

Definition bytes (s : string) : list nat :=
  List.map nat_of_ascii (list_ascii_of_string s).

Definition unbytes (l : list nat) : string :=
  string_of_list_ascii (List.map ascii_of_nat l).

Definition trim (s : string) : string :=
  let l := bytes s in
  let l := stripAll (List.length l) whiteSpace l in
  let r := stripAll (List.length l) (List.map (@List.rev nat) whiteSpace) (List.rev l) in
  unbytes (List.rev r).

(** [x.trim()]: a call on anything but a string finds no callable [trim]. *)
Definition callTrim (v : Value) : Completion string :=
  match v with
  | VJson (JStr s) => Normal (trim s)
  | _ => Throw TypeError
  end.

End JS.
Export JS.

(** *** [Date]: time values, ECMAScript's day and time arithmetic *)

Module JSDate.

Definition msPerDay : Z := 86400000.
Definition msPerHour : Z := 3600000.
Definition msPerMinute : Z := 60000.
Definition msPerSecond : Z := 1000.

Definition Day (t : Z) : Z := t / msPerDay.
Definition TimeWithinDay (t : Z) : Z := t mod msPerDay.

Definition MakeTime (hour min sec ms : Z) : Z :=
  hour * msPerHour + min * msPerMinute + sec * msPerSecond + ms.

Definition MakeDate (day time : Z) : Z := day * msPerDay + time.

(** Proleptic Gregorian calendar: the date [(year, month, day)] of a day
    number counted from 1970-01-01, [month] in 1..12, by 400-year eras. *)
Definition yearOfEra (doe : Z) : Z :=
  (doe - doe / 1460 + doe / 36524 - doe / 146096) / 365.

Definition dayOfYear (doe : Z) : Z :=
  let yoe := yearOfEra doe in doe - (365 * yoe + yoe / 4 - yoe / 100).

Definition civil (day : Z) : Z * Z * Z :=
  let z := day + 719468 in
  let era := z / 146097 in
  let doe := z mod 146097 in
  let yoe := yearOfEra doe in
  let doy := dayOfYear doe in
  let mp := (5 * doy + 2) / 153 in
  let d := doy - (153 * mp + 2) / 5 + 1 in
  let m := if mp <? 10 then mp + 3 else mp - 9 in
  (yoe + era * 400 + (if m <=? 2 then 1 else 0), m, d).

Definition daysFromCivil (y m d : Z) : Z :=
  let y' := if m <=? 2 then y - 1 else y in
  let era := y' / 400 in
  let yoe := y' mod 400 in
  let mp := if 2 <? m then m - 3 else m + 9 in
  let doy := (153 * mp + 2) / 5 + d - 1 in
  let doe := yoe * 365 + yoe / 4 - yoe / 100 + doy in
  era * 146097 + doe - 719468.

Definition YearFromTime (t : Z) : Z := (civil (Day t)).1.1.
(** 0 is January. *)
Definition MonthFromTime (t : Z) : Z := (civil (Day t)).1.2 - 1.
Definition DateFromTime (t : Z) : Z := (civil (Day t)).2.

(** [MakeDay(year, month, date)]: the day number of the first day of the
    month, plus [date - 1]; [month] beyond 0..11 carries into the year. *)
Definition MakeDay (year month date : Z) : Z :=
  let ym := year + month / 12 in
  let mn := month mod 12 in
  daysFromCivil ym (mn + 1) 1 + date - 1.

(** The time zone of the device: the offset of local time from UTC, in
    milliseconds, in force at an instant ([LocalTZA(t, true)]) and at a local
    time ([LocalTZA(t, false)]).  For a local time that a change of the clocks
    repeats or skips, the latter is the offset in force before the change. *)
Record TimeZone := { offsetAtUTC : Z -> Z; offsetAtLocal : Z -> Z }.

Definition LocalTime (tz : TimeZone) (t : Z) : Z := t + offsetAtUTC tz t.
Definition UTC (tz : TimeZone) (t : Z) : Z := t - offsetAtLocal tz t.

(** The range of the time values of a [Date]: 8.64e15 milliseconds either
    side of the epoch. *)
Definition maxTime : Z := 8640000000000000.

(** [TimeClip(time)]: no time value (an Invalid Date) outside the range. *)
Definition TimeClip (t : Z) : option Z :=
  if (- maxTime <=? t) && (t <=? maxTime) then Some t else None.

(** [d.setHours(hour, min, sec, ms)] on a valid date of time value [t]: the
    new time value. *)
Definition setHours (tz : TimeZone) (t hour min sec ms : Z) : option Z :=
  let lt := LocalTime tz t in
  TimeClip (UTC tz (MakeDate (Day lt) (MakeTime hour min sec ms))).

(** [d.getDate()] on a valid date. *)
Definition getDate (tz : TimeZone) (t : Z) : Z := DateFromTime (LocalTime tz t).

(** [d.setDate(date)] on a valid date: the new time value. *)
Definition setDate (tz : TimeZone) (t date : Z) : option Z :=
  let lt := LocalTime tz t in
  TimeClip (UTC tz (MakeDate (MakeDay (YearFromTime lt) (MonthFromTime lt) date)
                             (TimeWithinDay lt))).

(** A zone whose clocks never change. *)
Definition fixedZone (offset : Z) : TimeZone :=
  {| offsetAtUTC := fun _ => offset; offsetAtLocal := fun _ => offset |}.

(** The local time [lt] is not skipped by a change of the clocks: it is the
    local time of the instant it converts to. *)
Definition regular (tz : TimeZone) (lt : Z) : Prop :=
  offsetAtUTC tz (UTC tz lt) = offsetAtLocal tz lt.

Definition validTime (t : Z) : Prop := - maxTime <= t <= maxTime.

(** Decimal digits, [width] of them, of a natural [n]. *)
Fixpoint pad (width : nat) (n : Z) : string :=
  match width with
  | O => ""
  | S w => pad w (n / 10) +:+ String (ascii_of_nat (48 + Z.to_nat (n mod 10))) ""
  end.

(** [d.toISOString()]: [YYYY-MM-DDTHH:mm:ss.sssZ] in UTC, the year on six
    signed digits outside 0..9999. *)
Definition toISOString (t : Z) : string :=
  let '(y, m, d) := civil (Day t) in
  let tod := TimeWithinDay t in
  let year :=
    if (0 <=? y) && (y <=? 9999) then pad 4 y
    else if y <? 0 then "-" +:+ pad 6 (- y)
    else "+" +:+ pad 6 y in
  year +:+ "-" +:+ pad 2 m +:+ "-" +:+ pad 2 d +:+ "T"
    +:+ pad 2 (tod / msPerHour) +:+ ":"
    +:+ pad 2 (tod mod msPerHour / msPerMinute) +:+ ":"
    +:+ pad 2 (tod mod msPerMinute / msPerSecond) +:+ "."
    +:+ pad 3 (tod mod msPerSecond) +:+ "Z".

(** [s.split(sep)[0]] for a one-character separator: what precedes its
    first occurrence, the whole string when there is none. *)
Fixpoint splitHead (sep : ascii) (s : string) : string :=
  match s with
  | EmptyString => EmptyString
  | String c rest => if Ascii.eqb c sep then EmptyString else String c (splitHead sep rest)
  end.

End JSDate.
Export JSDate.

(** ** The application state and its effects *)

(** [useState('loading')], declared as [loading | open | turn | display]. *)
Inductive Stage := StageLoading | StageOpen | StageTurn | StageDisplay.

(** What [await fetch(API_URL)] followed by [await res.json()] can do. *)
Inductive FetchOutcome :=
| NetworkError               (* [fetch] rejects *)
| NonJsonBody                (* [res.json()] rejects *)
| JsonBody (json : Json).    (* the parsed body *)

(** The React state of [App], the AsyncStorage store and the pending local
    notifications of the device. *)
Record State := {
  verse : Verse;
  loading : bool;
  stage : Stage;
  storage : gmap string string;
  scheduled : list Notification
}.

(** What a run makes observable, in order. *)
Inductive Event :=
| EvSetStage (s : Stage)           (* [setStage(s)] *)
| EvFetchVerseReturned             (* [await fetchVerse()] resumed *)
| EvCancelAll                      (* [cancelAllScheduledNotificationsAsync()] *)
| EvSchedule (n : Notification)    (* [scheduleNotificationAsync(n)] *)
| EvSchedulerReturned.             (* [await scheduleIfNeeded()] resumed *)

#[global] Instance Stage_eq_dec : EqDecision Stage.
Proof. solve_decision. Defined.
#[global] Instance Event_eq_dec : EqDecision Event.
Proof. solve_decision. Defined.

(** Code that reads and writes the state, emits events and may throw.  The
    state and the events reached when it throws are kept, as the effects of
    JavaScript code are. *)
Definition M (A : Type) : Type := State -> Completion A * State * list Event.

Definition ret {A} (a : A) : M A := fun s => (Normal a, s, []).

Definition bind {A B} (m : M A) (k : A -> M B) : M B :=
  fun s =>
    match m s with
    | (Normal a, s1, ev1) =>
        match k a s1 with
        | (r, s2, ev2) => (r, s2, ev1 ++ ev2)
        end
    | (Throw e, s1, ev1) => (Throw e, s1, ev1)
    end.

(** [try { body } catch (e) { handler }] *)
Definition tryCatch {A} (body : M A) (handler : Exn -> M A) : M A :=
  fun s =>
    match body s with
    | (Normal a, s1, ev1) => (Normal a, s1, ev1)
    | (Throw e, s1, ev1) =>
        match handler e s1 with
        | (r, s2, ev2) => (r, s2, ev1 ++ ev2)
        end
    end.

Definition liftC {A} (c : Completion A) : M A := fun s => (c, s, []).

Definition emit (e : Event) : M unit := fun s => (Normal tt, s, [e]).

(** The three components of a run of [m] from [s]. *)
Definition outcome {A} (m : M A) (s : State) : Completion A := (m s).1.1.
Definition after {A} (m : M A) (s : State) : State := (m s).1.2.
Definition emitted {A} (m : M A) (s : State) : list Event := (m s).2.

Declare Scope js_scope.
Delimit Scope js_scope with js.
Notation "'let*' x := m 'in' k" := (bind m (fun x => k))
  (at level 10, x name, m at level 100, k at level 200) : js_scope.
Notation "m ;;; k" := (bind m (fun _ => k))
  (at level 100, k at level 200, right associativity) : js_scope.
Open Scope js_scope.

Definition setVerse (v : Verse) : M unit := fun s =>
  (Normal tt,
   {| verse := v; loading := loading s; stage := stage s;
      storage := storage s; scheduled := scheduled s |}, []).

Definition setLoading (b : bool) : M unit := fun s =>
  (Normal tt,
   {| verse := verse s; loading := b; stage := stage s;
      storage := storage s; scheduled := scheduled s |}, []).

Definition setStage (g : Stage) : M unit := fun s =>
  (Normal tt,
   {| verse := verse s; loading := loading s; stage := g;
      storage := storage s; scheduled := scheduled s |}, [EvSetStage g]).

(** [AsyncStorage.getItem(key)]: [null] for a key that was never set. *)
Definition getItem (key : string) : M (option string) := fun s =>
  (Normal (storage s !! key), s, []).

(** [AsyncStorage.setItem(key, value)] *)
Definition setItem (key value : string) : M unit := fun s =>
  (Normal tt,
   {| verse := verse s; loading := loading s; stage := stage s;
      storage := <[key := value]> (storage s); scheduled := scheduled s |}, []).

(** [Notifications.cancelAllScheduledNotificationsAsync()] *)
Definition cancelAllScheduledNotificationsAsync : M unit := fun s =>
  (Normal tt,
   {| verse := verse s; loading := loading s; stage := stage s;
      storage := storage s; scheduled := [] |}, [EvCancelAll]).

(** [Notifications.scheduleNotificationAsync(request)] *)
Definition scheduleNotificationAsync (request : Notification) : M unit := fun s =>
  (Normal tt,
   {| verse := verse s; loading := loading s; stage := stage s;
      storage := storage s; scheduled := scheduled s ++ [request] |},
   [EvSchedule request]).

(** The three successive readings of [new Date()] in a scheduler call: for
    [today], for [triggerDate], and for the comparison with it. *)
Record Reads := { now0 : Z; now1 : Z; now2 : Z }.

Section App.

(** [RNLocalize.getLocales()] at load, and the time zone of the device. *)
Variable locales : list Locale.
Variable tz : TimeZone.

(** *** Localisation constants *)

(** [RNLocalize.getLocales()[0]?.languageCode || 'en'] *)
Definition deviceLang : string :=
  match locales with
  | [] => "en"
  | l :: _ => if decide (languageCode l = "") then "en" else languageCode l
  end.

Definition isPt : bool := String.prefix "pt" deviceLang.
Definition TRANSLATION_ID : string := if isPt then "almeida" else "web".
Definition API_URL : string :=
  "https://bible-api.com/data/" +:+ TRANSLATION_ID +:+ "/random".
Definition BUTTON_LABEL : string := if isPt then "Novo Versículo" else "New Verse".
Definition NOTIF_TITLE : string := if isPt then "Versículo Diário" else "Daily Verse".
Definition NOTIF_BODY : string :=
  if isPt then "Toque para abrir o app e ler um versículo!"
  else "Tap to open the app and read a verse!".
Definition LAST_OPEN_KEY : string := "@bible:last_open_date".

(** *** [fetchVerse] *)

(** The body of the [try] block, from the settled request on. *)
Definition tryBlock (o : FetchOutcome) : M unit :=
  let* json := liftC (match o with
                      | NetworkError => Throw NetworkFailure
                      | NonJsonBody => Throw SyntaxError
                      | JsonBody j => Normal j
                      end) in
  let* rv := liftC (Get (VJson json) "random_verse") in
  let* t := liftC (Get rv "text") in
  let* txt := liftC (callTrim (nullish t (VJson (JStr "")))) in
  let* book := liftC (Get rv "book") in
  let* sbook := liftC (ToString book) in
  let* chapter := liftC (Get rv "chapter") in
  let* schapter := liftC (ToString chapter) in
  let* vs := liftC (Get rv "verse") in
  let* svs := liftC (ToString vs) in
  setVerse {| text := txt;
              reference := sbook +:+ " " +:+ schapter +:+ ":" +:+ svs |}.

(** The record [json.random_verse] of a response, when it has one: [None]
    for a request or a parse that failed, for a body that is not an object or
    has no [random_verse], and for a [random_verse] that is [null]. *)
Definition verseRecord (o : FetchOutcome) : option Json :=
  match o with
  | JsonBody (JObj fields) =>
      match ownProperty fields "random_verse" with
      | Some JNull => None
      | r => r
      end
  | _ => None
  end.

(** The verse set by the [catch] block. *)
Definition fallbackVerse : Verse :=
  {| text := "Erro ao obter versículo."; reference := "" |}.

(** [fetchVerse] from the point where the request has settled. *)
Definition fetchVerse_settled (o : FetchOutcome) : M unit :=
  tryCatch (tryBlock o) (fun e => setVerse fallbackVerse) ;;;
  setLoading false.

(** [fetchVerse], given what the network answers for each URL. *)
Definition fetchVerse (net : string -> FetchOutcome) : M unit :=
  setLoading true ;;;
  fetchVerse_settled (net API_URL).

(** *** The scheduling operation *)

(** [new Date().toISOString().split('T')[0]] *)
Definition todayOf (now : Z) : string := splitHead "T" (toISOString now).

(** [lastOpen !== today] *)
Definition differs (lastOpen : option string) (today : string) : bool :=
  negb (bool_decide (lastOpen = Some today)).

(** [triggerDate] after
    [triggerDate.setHours(10, 0, 0, 0);
     if (new Date() >= triggerDate) triggerDate.setDate(triggerDate.getDate() + 1)],
    [t1] and [t2] being the two readings of the clock.  An Invalid Date
    compares false with every date and is left as it is. *)
Definition triggerDateOf (t1 t2 : Z) : option Z :=
  match setHours tz t1 10 0 0 0 with
  | Some triggerDate =>
      if triggerDate <=? t2
      then setDate tz triggerDate (getDate tz triggerDate + 1)
      else Some triggerDate
  | None => None
  end.

(** [{ title: NOTIF_TITLE, body: verse.text || NOTIF_BODY,
       data: { reference: verse.reference } }] with its trigger. *)
Definition request (v : Verse) (tr : Trigger) : Notification :=
  {| title := NOTIF_TITLE;
     body := if decide (text v = "") then NOTIF_BODY else text v;
     data_reference := reference v;
     trigger := tr |}.

(** [scheduleIfNeeded] of the one-shot builds; [v] is the [verse] the
    function closes over. *)
Definition scheduleIfNeeded (v : Verse) (clk : Reads) : M unit :=
  let today := todayOf (now0 clk) in
  let* lastOpen := getItem LAST_OPEN_KEY in
  (if differs lastOpen today then
     let triggerDate := triggerDateOf (now1 clk) (now2 clk) in
     cancelAllScheduledNotificationsAsync ;;;
     scheduleNotificationAsync (request v (DateTrigger triggerDate "default"))
   else ret tt) ;;;
  setItem LAST_OPEN_KEY today.

(** [scheduleDailyNotification] of the repeating build. *)
Definition scheduleDailyNotification (v : Verse) (clk : Reads) : M unit :=
  let today := todayOf (now0 clk) in
  let* lastOpen := getItem LAST_OPEN_KEY in
  if differs lastOpen today then
    cancelAllScheduledNotificationsAsync ;;;
    scheduleNotificationAsync (request v (DailyTrigger 10 0 true "default")) ;;;
    setItem LAST_OPEN_KEY today
  else ret tt.

(** The scheduling operation of a build. *)
Definition schedule (b : Build) : Verse -> Reads -> M unit :=
  match b with
  | OneShot => scheduleIfNeeded
  | Repeating => scheduleDailyNotification
  end.

(** *** The launch effect and the refresh handler, run without interleaving *)

(** The async function of the mount effect.  [v] is the [verse] of the render
    that created it. *)
Definition launchEffect (b : Build) (v : Verse)
    (net : string -> FetchOutcome) (clk : Reads) : M unit :=
  fetchVerse net ;;; emit EvFetchVerseReturned ;;;
  schedule b v clk ;;; emit EvSchedulerReturned ;;;
  setStage StageOpen.

(** [handleRefresh]; [v] is the [verse] of the render whose button was
    pressed. *)
Definition handleRefresh (b : Build) (v : Verse)
    (net : string -> FetchOutcome) (clk : Reads) : M unit :=
  setStage StageOpen ;;;
  fetchVerse net ;;; emit EvFetchVerseReturned ;;;
  schedule b v clk ;;; emit EvSchedulerReturned.

(** *** The event loop: the async tasks of the screen, interleaved *)

(** Where an async task is suspended: the [await] it waits on, with the
    local variables that are live across it. *)
Inductive Pc :=
| AwaitFetch                                       (* [fetch] / [res.json()] *)
| AwaitGetItem (today : string)                    (* [AsyncStorage.getItem] *)
| AwaitCancel (today : string) (tr : Trigger)      (* [cancelAll...Async] *)
| AwaitSchedule (today : string) (tr : Trigger)    (* [scheduleNotificationAsync] *)
| AwaitSetItem (today : string)                    (* [AsyncStorage.setItem] *)
| Finished                                         (* returned *)
| Rejected (e : Exn).                              (* threw past its caller *)

Inductive Caller := Launch | Refresh.

(** A running call of the mount effect or of [handleRefresh], with the
    [verse] of the render it closes over. *)
Record Task := { caller : Caller; captured : Verse; pc : Pc }.

(** What happened on the screen, oldest first. *)
Inductive Occurrence :=
| OFontsLoaded
| OAnimationFinish                  (* [onAnimationFinish] fired *)
| ORefreshPressed (id : nat)        (* the button started task [id] *)
| OTask (id : nat) (e : Event).     (* task [id] did [e] *)

Record App := {
  state : State;
  fontsLoaded : bool;
  tasks : list Task;
  history : list Occurrence
}.

(** What the environment can deliver to the event loop. *)
Inductive Input :=
| FontsLoaded
| AnimationFinish
| PressRefresh
| FetchSettled (id : nat) (o : FetchOutcome) (t0 : Z)
| GetItemResolved (id : nat) (t1 t2 : Z)
| CancelResolved (id : nat)
| ScheduleResolved (id : nat)
| SetItemResolved (id : nat).

Definition initialVerse : Verse := {| text := ""; reference := "" |}.

(** The screen after the first render and the synchronous part of the mount
    effect, over what the device persisted. *)
Definition mount (store : gmap string string) (pending : list Notification) : App :=
  {| state := {| verse := initialVerse; loading := true; stage := StageLoading;
                 storage := store; scheduled := pending |};
     fontsLoaded := false;
     tasks := [ {| caller := Launch; captured := initialVerse; pc := AwaitFetch |} ];
     history := [] |}.

(** [(stage === 'open' || stage === 'turn') && <LottieView ... />] *)
Definition lottieMounted (g : Stage) : bool :=
  bool_decide (g = StageOpen) || bool_decide (g = StageTurn).

(** The trigger each build passes to [scheduleNotificationAsync]. *)
Definition triggerOf (b : Build) (t1 t2 : Z) : Trigger :=
  match b with
  | OneShot => DateTrigger (triggerDateOf t1 t2) "default"
  | Repeating => DailyTrigger 10 0 true "default"
  end.

(** The scheduling operation returned: its caller goes on. *)
Definition returned (c : Caller) : M Pc :=
  emit EvSchedulerReturned ;;;
  match c with
  | Launch => setStage StageOpen
  | Refresh => ret tt
  end ;;;
  ret Finished.

(** The synchronous segment that task [t] runs when the operation it awaits
    settles, up to its next [await]; [None] when [i] is not what it awaits. *)
Definition resume (b : Build) (t : Task) (i : Input) : option (M Pc) :=
  match pc t, i with
  | AwaitFetch, FetchSettled _ o t0 =>
      Some (fetchVerse_settled o ;;; emit EvFetchVerseReturned ;;;
            ret (AwaitGetItem (todayOf t0)))
  | AwaitGetItem today, GetItemResolved _ t1 t2 =>
      Some (let* lastOpen := getItem LAST_OPEN_KEY in
            if differs lastOpen today then ret (AwaitCancel today (triggerOf b t1 t2))
            else match b with
                 | OneShot => ret (AwaitSetItem today)
                 | Repeating => returned (caller t)
                 end)
  | AwaitCancel today tr, CancelResolved _ =>
      Some (cancelAllScheduledNotificationsAsync ;;; ret (AwaitSchedule today tr))
  | AwaitSchedule today tr, ScheduleResolved _ =>
      Some (scheduleNotificationAsync (request (captured t) tr) ;;;
            ret (AwaitSetItem today))
  | AwaitSetItem today, SetItemResolved _ =>
      Some (setItem LAST_OPEN_KEY today ;;; returned (caller t))
  | _, _ => None
  end.

Definition taskOf (i : Input) : option nat :=
  match i with
  | FetchSettled id _ _ | GetItemResolved id _ _ | CancelResolved id
  | ScheduleResolved id | SetItemResolved id => Some id
  | _ => None
  end.

(** Task [id] resumes on [i]: it runs to its next [await], its events are
    recorded under its name; a throw that nothing catches ends it. *)
Definition stepTask (b : Build) (a : App) (id : nat) (i : Input) : option App :=
  match tasks a !! id with
  | None => None
  | Some t =>
      match resume b t i with
      | None => None
      | Some m =>
          match m (state a) with
          | (r, s', evs) =>
              let pc' := match r with Normal p => p | Throw e => Rejected e end in
              Some {| state := s'; fontsLoaded := fontsLoaded a;
                      tasks := <[id := {| caller := caller t;
                                          captured := captured t;
                                          pc := pc' |}]> (tasks a);
                      history := history a ++ List.map (OTask id) evs |}
          end
      end
  end.

(** One turn of the event loop; [None] when the input cannot occur in [a]. *)
Definition step (b : Build) (a : App) (i : Input) : option App :=
  match i with
  | FontsLoaded =>
      Some {| state := state a; fontsLoaded := true; tasks := tasks a;
              history := history a ++ [OFontsLoaded] |}
  | AnimationFinish =>
      (* [onAnimationFinish={() => setStage('display')}] of the mounted player *)
      if fontsLoaded a && lottieMounted (stage (state a)) then
        match setStage StageDisplay (state a) with
        | (_, s', _) =>
            Some {| state := s'; fontsLoaded := fontsLoaded a; tasks := tasks a;
                    history := history a ++ [OAnimationFinish] |}
        end
      else None
  | PressRefresh =>
      (* [onPress={handleRefresh} disabled={loading}]: the handler runs up to
         the [await] inside [fetchVerse] *)
      if fontsLoaded a && negb (loading (state a)) then
        let id := length (tasks a) in
        match (setStage StageOpen ;;; setLoading true) (state a) with
        | (_, s', evs) =>
            Some {| state := s'; fontsLoaded := fontsLoaded a;
                    tasks := tasks a ++ [ {| caller := Refresh;
                                             captured := verse (state a);
                                             pc := AwaitFetch |} ];
                    history := history a ++ ORefreshPressed id :: List.map (OTask id) evs |}
        end
      else None
  | _ =>
      match taskOf i with
      | Some id => stepTask b a id i
      | None => None
      end
  end.

Fixpoint run (b : Build) (a : App) (inputs : list Input) : option App :=
  match inputs with
  | [] => Some a
  | i :: rest =>
      match step b a i with
      | Some a' => run b a' rest
      | None => None
      end
  end.

(** The states some execution of the screen reaches. *)
Definition reachable (b : Build) (a : App) : Prop :=
  exists store pending inputs, run b (mount store pending) inputs = Some a.

(** What task [id] did, in order. *)
Fixpoint eventsOf (id : nat) (h : list Occurrence) : list Event :=
  match h with
  | [] => []
  | OTask id' e :: rest =>
      if decide (id' = id) then e :: eventsOf id rest else eventsOf id rest
  | _ :: rest => eventsOf id rest
  end.

(** The three steps whose order the control flow fixes. *)
Definition isMilestone (e : Event) : bool :=
  match e with
  | EvSetStage _ | EvFetchVerseReturned | EvSchedulerReturned => true
  | EvCancelAll | EvSchedule _ => false
  end.

(** The milestones of a caller, in the order its code reaches them. *)
Definition order (c : Caller) : list Event :=
  match c with
  | Launch => [EvFetchVerseReturned; EvSchedulerReturned; EvSetStage StageOpen]
  | Refresh => [EvSetStage StageOpen; EvFetchVerseReturned; EvSchedulerReturned]
  end.

(** The milestones a task of caller [c] has behind it when suspended at [p]. *)
Definition progress (c : Caller) (p : Pc) : list Event :=
  match p with
  | AwaitFetch => match c with Launch => [] | Refresh => [EvSetStage StageOpen] end
  | AwaitGetItem _ | AwaitCancel _ _ | AwaitSchedule _ _ | AwaitSetItem _ =>
      match c with
      | Launch => [EvFetchVerseReturned]
      | Refresh => [EvSetStage StageOpen; EvFetchVerseReturned]
      end
  | Finished => order c
  | Rejected _ => []
  end.

(** What a caller does before it calls [fetchVerse], and what it does after
    the scheduling operation has returned. *)
Definition before (c : Caller) : list Event :=
  match c with Launch => [] | Refresh => [EvSetStage StageOpen] end.

Definition afterwards (c : Caller) : list Event :=
  match c with Launch => [EvSetStage StageOpen] | Refresh => [] end.

(** The calls a run of the scheduling operation makes on the notifications:
    none, or a cancellation followed by one request. *)
Definition schedulerCalls (calls : list Event) : Prop :=
  calls = [] \/ exists n, calls = [EvCancelAll; EvSchedule n].

(** What a task of caller [c] has done, in order, when it is suspended at
    [p]. *)
Definition traceAt (c : Caller) (p : Pc) (evs : list Event) : Prop :=
  match p with
  | AwaitFetch => evs = before c
  | AwaitGetItem _ | AwaitCancel _ _ => evs = before c ++ [EvFetchVerseReturned]
  | AwaitSchedule _ _ => evs = before c ++ [EvFetchVerseReturned; EvCancelAll]
  | AwaitSetItem _ =>
      exists calls, schedulerCalls calls /\
        evs = before c ++ EvFetchVerseReturned :: calls
  | Finished =>
      exists calls, schedulerCalls calls /\
        evs = before c ++ EvFetchVerseReturned :: calls
                ++ EvSchedulerReturned :: afterwards c
  | Rejected _ => False
  end.

(** A refresh whose scheduling overlaps that of the launch: the button is
    pressed once the first fetch has returned, and both calls have read the
    stored date before either has written it. *)
Definition overlap (o0 o1 : FetchOutcome) (c0 c1 : Reads) : list Input :=
  [FontsLoaded;
   FetchSettled 0 o0 (now0 c0); PressRefresh; FetchSettled 1 o1 (now0 c1);
   GetItemResolved 0 (now1 c0) (now2 c0); GetItemResolved 1 (now1 c1) (now2 c1);
   CancelResolved 0; CancelResolved 1; ScheduleResolved 0; ScheduleResolved 1;
   SetItemResolved 0; SetItemResolved 1].

(** The verse that [fetchVerse] sets for a response. *)
Definition fetchedVerse (o : FetchOutcome) : Verse :=
  verse (after (fetchVerse_settled o) (state (mount ∅ []))).

(** A first launch that runs alone to its end and schedules, and a refresh
    that does the same on a later day. *)
Definition firstLaunch (o : FetchOutcome) (c : Reads) : list Input :=
  [FetchSettled 0 o (now0 c); GetItemResolved 0 (now1 c) (now2 c);
   CancelResolved 0; ScheduleResolved 0; SetItemResolved 0].

Definition laterRefresh (o : FetchOutcome) (c : Reads) : list Input :=
  [FontsLoaded; PressRefresh;
   FetchSettled 1 o (now0 c); GetItemResolved 1 (now1 c) (now2 c);
   CancelResolved 1; ScheduleResolved 1; SetItemResolved 1].

Definition isSchedule (e : Event) : bool :=
  match e with EvSchedule _ => true | _ => false end.


(** Ten o'clock local time of the local calendar day of the instant [t]. *)
Definition tenOClockOn (t : Z) : Z :=
  MakeDate (Day (LocalTime tz t)) (MakeTime 10 0 0 0).


(** The inputs that let the launch task run alone to its end, given what the
    network and the clock answer and whether the stored date differs. *)
Definition launchInputs (b : Build) (net : string -> FetchOutcome) (clk : Reads)
    (stored : option string) : list Input :=
  [FetchSettled 0 (net API_URL) (now0 clk);
   GetItemResolved 0 (now1 clk) (now2 clk)] ++
  (if differs stored (todayOf (now0 clk))
   then [CancelResolved 0; ScheduleResolved 0; SetItemResolved 0]
   else match b with
        | OneShot => [SetItemResolved 0]
        | Repeating => []
        end).

(** ** Sample inputs for the concrete runs *)

Definition english : list Locale := [ {| languageCode := "en" |} ].
Definition portuguese : list Locale := [ {| languageCode := "pt" |} ].

Definition genesis : Verse :=
  {| text := "In the beginning"; reference := "Genesis 1:1" |}.

(** Universal time, and New York in 2024: five hours behind UTC, four from
    2024-03-10T07:00:00Z, when the local time jumps from 02:00 to 03:00, until
    2024-11-03T06:00:00Z, when it goes from 02:00 back to 01:00. *)
Definition utc : TimeZone := fixedZone 0.

Definition newYork : TimeZone :=
  {| offsetAtUTC := fun t =>
       if t <? 1710054000000 then -18000000
       else if t <? 1730613600000 then -14400000 else -18000000;
     offsetAtLocal := fun lt =>
       if lt <? 1710039600000 then -18000000
       else if lt <? 1730599200000 then -14400000 else -18000000 |}.

(** 2024-11-02T14:00:00Z, ten o'clock in New York on the eve of the change,
    and 2024-01-04T10:00:00Z. *)
Definition nov2_1400 : Z := 1730556000000.

(** 2024-01-02T09:00:00Z, 2024-01-02T15:00:00Z and 2024-01-03T09:00:00Z. *)
Definition jan2_0900 : Z := 1704186000000.
Definition jan2_1500 : Z := 1704207600000.
Definition jan3_0900 : Z := 1704272400000.

(** A clock that does not move during the call. *)
Definition at_ (t : Z) : Reads := {| now0 := t; now1 := t; now2 := t |}.

(** A state with [lastOpen] stored and [v] on screen. *)
Definition opened (lastOpen : option string) (v : Verse) : State :=
  {| verse := v; loading := false; stage := StageOpen;
     storage := match lastOpen with
                | Some d => {[ LAST_OPEN_KEY := d ]}
                | None => ∅
                end;
     scheduled := [] |}.

(** [{"random_verse": {"book": "John", "chapter": 3, "verse": 16, "text": ...}}] *)
Definition john316 : FetchOutcome :=
  JsonBody (JObj [("random_verse",
                   JObj [("book", JStr "John"); ("chapter", JNum "3");
                         ("verse", JNum "16");
                         ("text", JStr "For God so loved the world ")])]).

(** [{"random_verse": {"book": "Genesis", "chapter": 1, "verse": 1, "text": ...}}] *)
Definition genesis11 : FetchOutcome :=
  JsonBody (JObj [("random_verse",
                   JObj [("book", JStr "Genesis"); ("chapter", JNum "1");
                         ("verse", JNum "1"); ("text", JStr "In the beginning")])]).

(** [{"random_verse": {}}]: a verse record with none of the expected fields. *)
Definition bareRecord : FetchOutcome :=
  JsonBody (JObj [("random_verse", JObj [])]).

(** A session: the fonts load, the launch task runs to its end while the
    button is pressed once, the animation finishes. *)
Definition session : list Input :=
  [FontsLoaded; FetchSettled 0 john316 jan2_0900; PressRefresh;
   GetItemResolved 0 jan2_0900 jan2_0900; CancelResolved 0;
   ScheduleResolved 0; SetItemResolved 0;
   FetchSettled 1 NetworkError jan2_0900; AnimationFinish].


(** The invariant of the event loop: the stage is never ['turn'] and is
    ['display'] only after an animation finished; while it is ['loading'] the
    launch task is alone and no scheduling has returned; task 0 is the launch
    task, the others are refreshes, and each task has behind it exactly the
    milestones its suspension point says; the only stage a task sets is
    ['open']; no task has thrown past its caller. *)
Record Inv (a : App) : Prop := {
  inv_turn : stage (state a) <> StageTurn;
  inv_display : stage (state a) = StageDisplay -> In OAnimationFinish (history a);
  inv_loading :
    stage (state a) = StageLoading ->
    length (tasks a) = 1%nat /\
    forall id, ~ In EvSchedulerReturned (eventsOf id (history a));
  inv_launch : (0 < length (tasks a))%nat;
  inv_tasks :
    forall id t, tasks a !! id = Some t ->
      (caller t = Launch <-> id = 0%nat) /\
      List.filter isMilestone (eventsOf id (history a)) = progress (caller t) (pc t);
  inv_fresh :
    forall id, (length (tasks a) <= id)%nat -> eventsOf id (history a) = [];
  inv_stage_set :
    forall id g, In (EvSetStage g) (eventsOf id (history a)) -> g = StageOpen;
  inv_caught :
    forall id t e, tasks a !! id = Some t -> pc t <> Rejected e
}.


(** ** Definitions for the further properties *)

(** Whether a string begins, and whether it ends, with one of the code points
    that [trim] removes. *)
Definition startsWithWhiteSpace (s : string) : bool :=
  match stripOne whiteSpace (bytes s) with Some _ => true | None => false end.
Definition endsWithWhiteSpace (s : string) : bool :=
  match stripOne (List.map (@List.rev nat) whiteSpace) (List.rev (bytes s)) with
  | Some _ => true
  | None => false
  end.

(** [{verse.reference && (<Paragraph ...>{verse.reference}</Paragraph>)}]:
    whether the card shows the reference line. *)
Definition referenceShown (v : Verse) : bool :=
  negb (String.eqb (reference v) "").

(** The year as [toISOString] prints it: four digits from 0 to 9999, a sign
    and six digits outside. *)
Definition isoYear (y : Z) : string :=
  if (0 <=? y) && (y <=? 9999) then pad 4 y
  else if y <? 0 then "-" +:+ pad 6 (- y)
  else "+" +:+ pad 6 y.

(** What [toISOString] prints before its [T], for a day number. *)
Definition isoDate (day : Z) : string :=
  let '(y, m, d) := civil day in
  isoYear y +:+ "-" +:+ pad 2 m +:+ "-" +:+ pad 2 d.

(** Whether a task is suspended inside [fetchVerse]. *)
Definition fetching (t : Task) : bool :=
  match pc t with AwaitFetch => true | _ => false end.

(** The number of requests in flight. *)
Definition inFlight (a : App) : nat := length (List.filter fetching (tasks a)).

(** What the event loop keeps about the requests it schedules: the launch task
    closes over the initial verse, and every request a task has scheduled was
    built from the verse that task closes over. *)
Record LaunchInv (a : App) : Prop := {
  linv_captured :
    forall t, tasks a !! 0%nat = Some t -> captured t = initialVerse;
  linv_requests :
    forall id t n, tasks a !! id = Some t ->
      In (EvSchedule n) (eventsOf id (history a)) ->
      exists tr, n = request (captured t) tr
}.

(** ** Tracking permission and the ad banner *)

(** [useState('undetermined')], with the values its comment lists:
    ['undetermined' | 'granted' | 'denied' | 'restricted']. *)
Inductive PermissionStatus := Undetermined | Granted | Denied | Restricted.

(** [Platform.OS], as far as the code tells its values apart. *)
Inductive OS := IOS | Android | OtherOS.

(** The build that asks for the tracking permission and renders the banner
    once the answer is known ([Gated]), and the build of [App.js], which
    neither asks nor calls [mobileAds().initialize()] ([Ungated]). *)
Inductive AdsBuild := Gated | Ungated.

(** Where the tracking effect is suspended: on [getTrackingPermissionsAsync],
    on [requestTrackingPermissionsAsync], or not any more. *)
Inductive AttPc := AttAwaitGet | AttAwaitRequest | AttDone.

(** [attStatus] and [showBanner] of the React state; whether the effect on
    [[attStatus]] is scheduled, the render with a new status being committed
    and the effect not run yet; and the number of calls of
    [mobileAds().initialize()] and of [requestTrackingPermissionsAsync()]
    made so far. *)
Record Ads := {
  attStatus : PermissionStatus;
  showBanner : bool;
  effectPending : bool;
  adsInitialized : nat;
  attPrompts : nat;
  attPc : AttPc
}.

(** What the environment can deliver: the two permission calls settle, React
    runs the scheduled effect, the banner reports [onAdLoaded] or
    [onAdFailedToLoad]. *)
Inductive AdsInput :=
| AttGetResolved (status : PermissionStatus)
| AttGetRejected
| AttRequestResolved (afterPrompt : PermissionStatus)
| AttRequestRejected
| InitEffectRuns
| AdLoaded
| AdFailedToLoad.

#[global] Instance PermissionStatus_eq_dec : EqDecision PermissionStatus.
Proof. solve_decision. Defined.

(** [attStatus !== 'undetermined'] *)
Definition determined (st : PermissionStatus) : bool :=
  negb (bool_decide (st = Undetermined)).

(** [setAttStatus(v)], after which the tracking effect is at [pc'].  A value
    other than the current one renders again: the render, which holds the
    banner when its condition is met, is committed, and the effect on
    [[attStatus]] is scheduled to run after it.  The current value does
    neither. *)
Definition setAttStatus (v : PermissionStatus) (pc' : AttPc) (a : Ads) : Ads :=
  {| attStatus := v;
     showBanner := showBanner a;
     effectPending := if bool_decide (v = attStatus a) then effectPending a else true;
     adsInitialized := adsInitialized a;
     attPrompts := attPrompts a;
     attPc := pc' |}.

(** The effect on [[attStatus]]:
    [if (attStatus !== 'undetermined') mobileAds().initialize()]. *)
Definition initEffect (a : Ads) : Ads :=
  {| attStatus := attStatus a;
     showBanner := showBanner a;
     effectPending := false;
     adsInitialized :=
       if determined (attStatus a) then S (adsInitialized a) else adsInitialized a;
     attPrompts := attPrompts a;
     attPc := attPc a |}.

(** [setShowBanner(v)] *)
Definition setShowBanner (v : bool) (a : Ads) : Ads :=
  {| attStatus := attStatus a; showBanner := v;
     effectPending := effectPending a;
     adsInitialized := adsInitialized a; attPrompts := attPrompts a;
     attPc := attPc a |}.

(** The state after the first render and its effects, up to their first
    [await]: the effect on [[attStatus]] has run with the status
    ['undetermined'] and called nothing; off iOS the tracking effect has called
    [setAttStatus('granted')] and returned, on iOS it waits for
    [getTrackingPermissionsAsync()]. *)
Definition adsMount (g : AdsBuild) (os : OS) : Ads :=
  let a0 := {| attStatus := Undetermined; showBanner := true;
               effectPending := false;
               adsInitialized := 0; attPrompts := 0; attPc := AttDone |} in
  match g with
  | Ungated => a0
  | Gated =>
      match os with
      | IOS => {| attStatus := Undetermined; showBanner := true;
                  effectPending := false;
                  adsInitialized := 0; attPrompts := 0; attPc := AttAwaitGet |}
      | _ => setAttStatus Granted AttDone a0
      end
  end.

(** The condition under which the render holds a [BannerAd], the fonts apart:
    [attStatus !== 'undetermined' && showBanner] in the gated build,
    [showBanner] in [App.js]. *)
Definition bannerMounted (g : AdsBuild) (a : Ads) : bool :=
  match g with
  | Gated => determined (attStatus a) && showBanner a
  | Ungated => showBanner a
  end.

(** One turn of the event loop for the tracking effect and the banner; [None]
    when the input cannot occur.  The callbacks of the banner can fire only
    while it is mounted. *)
Definition adsStep (g : AdsBuild) (a : Ads) (i : AdsInput) : option Ads :=
  match i, attPc a with
  | AttGetResolved status, AttAwaitGet =>
      (* [if (status === 'undetermined')] the prompt is requested, [else]
         the status is kept *)
      if bool_decide (status = Undetermined)
      then Some {| attStatus := attStatus a; showBanner := showBanner a;
                   effectPending := effectPending a;
                   adsInitialized := adsInitialized a;
                   attPrompts := S (attPrompts a); attPc := AttAwaitRequest |}
      else Some (setAttStatus status AttDone a)
  | AttGetRejected, AttAwaitGet =>
      (* nothing catches the rejection: the effect ends *)
      Some {| attStatus := attStatus a; showBanner := showBanner a;
              effectPending := effectPending a;
              adsInitialized := adsInitialized a;
              attPrompts := attPrompts a; attPc := AttDone |}
  | AttRequestResolved afterPrompt, AttAwaitRequest =>
      (* [setAttStatus(afterPrompt)] *)
      Some (setAttStatus afterPrompt AttDone a)
  | AttRequestRejected, AttAwaitRequest =>
      Some {| attStatus := attStatus a; showBanner := showBanner a;
              effectPending := effectPending a;
              adsInitialized := adsInitialized a;
              attPrompts := attPrompts a; attPc := AttDone |}
  | InitEffectRuns, _ =>
      (* the effect runs once after the commit that scheduled it *)
      if effectPending a then Some (initEffect a) else None
  | AdLoaded, _ =>
      (* [onAdLoaded={() => setShowBanner(true)}] *)
      if bannerMounted g a then Some (setShowBanner true a) else None
  | AdFailedToLoad, _ =>
      (* [onAdFailedToLoad]: [setShowBanner(false)] *)
      if bannerMounted g a then Some (setShowBanner false a) else None
  | _, _ => None
  end.

Fixpoint adsRun (g : AdsBuild) (a : Ads) (inputs : list AdsInput) : option Ads :=
  match inputs with
  | [] => Some a
  | i :: rest =>
      match adsStep g a i with
      | Some a' => adsRun g a' rest
      | None => None
      end
  end.

(** The invariant of the tracking effect: the ad SDK has been initialised once
    if the status is known and the effect that follows has run, and not at all
    otherwise; that effect is scheduled only once the status is known; a known
    status means the tracking effect has ended; the prompt has been shown at
    most once, not before [getTrackingPermissionsAsync] answered, and never off
    iOS. *)
Record AdsInv (os : OS) (a : Ads) : Prop := {
  ainv_init :
    adsInitialized a =
      if determined (attStatus a) && negb (effectPending a) then 1%nat else 0%nat;
  ainv_pending : effectPending a = true -> determined (attStatus a) = true;
  ainv_done : determined (attStatus a) = true -> attPc a = AttDone;
  ainv_first : attPc a = AttAwaitGet -> attPrompts a = 0%nat;
  ainv_once : (attPrompts a <= 1)%nat;
  ainv_os : os <> IOS -> attPrompts a = 0%nat /\ attPc a = AttDone
}.

(** * Properties *)

(** ** Calendar arithmetic *)

(** Within an era the year is in 0..399 and the day of the year in 0..365. *)
Lemma eraDay_bounds doe :
  0 <= doe < 146097 ->
  0 <= yearOfEra doe <= 399 /\ 0 <= dayOfYear doe <= 365.
Proof.
  intros H. unfold dayOfYear, yearOfEra.
  Z.to_euclidean_division_equations. lia.
Qed.

(** [MakeDay] on the year and month of [day] counts from the first day of
    that month, so the day of the month brings back [day]. *)
Lemma MakeDay_of_civil day k :
  let '(y, m, d) := civil day in
  MakeDay y (m - 1) (d + k) = day + k.
Proof.
  unfold civil, MakeDay, daysFromCivil.
  set (z := day + 719468).
  assert (Hdoe : 0 <= z mod 146097 < 146097) by (apply Z.mod_pos_bound; lia).
  pose proof (Z.div_mod z 146097 ltac:(lia)) as Hz.
  destruct (eraDay_bounds _ Hdoe) as [Hy Hd].
  set (era := z / 146097) in *. set (doe := z mod 146097) in *.
  unfold dayOfYear in *. set (yoe := yearOfEra doe) in *.
  set (doy := doe - (365 * yoe + yoe / 4 - yoe / 100)) in *.
  set (mp := (5 * doy + 2) / 153).
  assert (Hmp : 0 <= mp <= 11) by (subst mp; Z.to_euclidean_division_equations; lia).
  set (m := if mp <? 10 then mp + 3 else mp - 9).
  assert (Hm : 1 <= m <= 12 /\ (if 2 <? m then m - 3 else m + 9) = mp).
  { subst m. destruct (Z.ltb_spec mp 10);
      repeat match goal with |- context [?a <? ?b] => destruct (Z.ltb_spec a b) end;
      lia. }
  destruct Hm as (Hm1 & Hm2).
  replace ((m - 1) / 12) with 0 by (Z.to_euclidean_division_equations; lia).
  replace ((m - 1) mod 12 + 1) with m by (Z.to_euclidean_division_equations; lia).
  rewrite Hm2.
  set (c := if m <=? 2 then 1 else 0).
  assert (Hc : (if m <=? 2 then yoe + era * 400 + c + 0 - 1 else yoe + era * 400 + c + 0)
               = yoe + era * 400).
  { subst c. destruct (m <=? 2); lia. }
  rewrite Hc.
  replace ((yoe + era * 400) / 400) with era by (Z.to_euclidean_division_equations; lia).
  replace ((yoe + era * 400) mod 400) with yoe by (Z.to_euclidean_division_equations; lia).
  subst doy z. lia.
Qed.

Lemma TimeClip_valid (t : Z) : validTime t -> TimeClip t = Some t.
Proof.
  unfold validTime, TimeClip. intros [H1 H2].
  destruct (Z.leb_spec (- maxTime) t); [|lia].
  destruct (Z.leb_spec t maxTime); [reflexivity|lia].
Qed.

Lemma TimeClip_invalid (t : Z) : ~ validTime t -> TimeClip t = None.
Proof.
  unfold validTime, TimeClip. intros H.
  destruct (Z.leb_spec (- maxTime) t); [|reflexivity].
  destruct (Z.leb_spec t maxTime); [lia|reflexivity].
Qed.

(** A local time that is not skipped is the local time of the instant it
    converts to. *)
Lemma LocalTime_UTC (z : TimeZone) (lt : Z) :
  regular z lt -> LocalTime z (UTC z lt) = lt.
Proof.
  unfold regular, LocalTime. intros ->. unfold UTC. lia.
Qed.

(** [d.setDate(d.getDate() + 1)] moves [d] to the same local time of the next
    local calendar day, across the ends of months and years; the instant is
    then taken with the offset of that local time. *)
Lemma setDate_next_day (z : TimeZone) (t : Z) :
  setDate z t (getDate z t + 1) = TimeClip (UTC z (LocalTime z t + msPerDay)).
Proof.
  unfold setDate, getDate, YearFromTime, MonthFromTime, DateFromTime.
  set (lt := LocalTime z t).
  pose proof (MakeDay_of_civil (Day lt) 1) as H.
  destruct (civil (Day lt)) as [[y m] d]. simpl. rewrite H.
  f_equal. f_equal.
  unfold MakeDate, Day, TimeWithinDay, msPerDay.
  Z.to_euclidean_division_equations. lia.
Qed.

(** [triggerDate] is ten o'clock local time of the local day of the first
    reading when that instant is after the second reading, and ten o'clock
    local time of the next day otherwise. *)
Lemma triggerDateOf_local (t1 t2 : Z) :
  regular tz (tenOClockOn t1) ->
  validTime (UTC tz (tenOClockOn t1)) ->
  validTime (UTC tz (tenOClockOn t1 + msPerDay)) ->
  triggerDateOf t1 t2 =
    Some (if UTC tz (tenOClockOn t1) <=? t2
          then UTC tz (tenOClockOn t1 + msPerDay)
          else UTC tz (tenOClockOn t1)).
Proof.
  intros Hreg Hv Hv'. unfold triggerDateOf, setHours. fold (tenOClockOn t1).
  rewrite (TimeClip_valid _ Hv).
  destruct (UTC tz (tenOClockOn t1) <=? t2); [|reflexivity].
  rewrite setDate_next_day, (LocalTime_UTC _ _ Hreg).
  apply TimeClip_valid. exact Hv'.
Qed.


(** ** The scheduling operation *)

(** What a call of the scheduling operation does, in one equation: when the
    stored date differs from [today] it clears the pending notifications,
    schedules one request and stores [today]; otherwise it schedules nothing
    (and the one-shot build stores [today] again). *)
Lemma schedule_run (b : Build) (v : Verse) (clk : Reads) (s : State) :
  schedule b v clk s =
    let today := todayOf (now0 clk) in
    if differs (storage s !! LAST_OPEN_KEY) today then
      let n := request v (triggerOf b (now1 clk) (now2 clk)) in
      (Normal tt,
       {| verse := verse s; loading := loading s; stage := stage s;
          storage := <[LAST_OPEN_KEY := today]> (storage s);
          scheduled := [n] |},
       [EvCancelAll; EvSchedule n])
    else
      (Normal tt,
       {| verse := verse s; loading := loading s; stage := stage s;
          storage := match b with
                     | OneShot => <[LAST_OPEN_KEY := today]> (storage s)
                     | Repeating => storage s
                     end;
          scheduled := scheduled s |},
       []).
Proof.
  destruct s as [sv sl sg st sc].
  destruct b; cbn [schedule]; unfold scheduleIfNeeded, scheduleDailyNotification;
    unfold bind at 1; unfold getItem at 1; cbn [storage]; cbv zeta;
    destruct (differs (st !! LAST_OPEN_KEY) (todayOf (now0 clk))); reflexivity.
Qed.

Lemma differs_false (lastOpen : option string) (today : string) :
  differs lastOpen today = false <-> lastOpen = Some today.
Proof.
  unfold differs. rewrite negb_false_iff, bool_decide_eq_true. reflexivity.
Qed.

Lemma differs_true (lastOpen : option string) (today : string) :
  differs lastOpen today = true <-> lastOpen <> Some today.
Proof.
  unfold differs. rewrite negb_true_iff, bool_decide_eq_false. reflexivity.
Qed.

(** The store after a call holds [today]; a call made when it already did
    changes neither the store nor the pending notifications and emits
    nothing. *)
Lemma schedule_stores_today (b : Build) (v : Verse) (clk : Reads) (s : State) :
  storage (after (schedule b v clk) s) !! LAST_OPEN_KEY = Some (todayOf (now0 clk)) /\
  (storage s !! LAST_OPEN_KEY = Some (todayOf (now0 clk)) ->
     storage (after (schedule b v clk) s) = storage s /\
     scheduled (after (schedule b v clk) s) = scheduled s /\
     emitted (schedule b v clk) s = []).
Proof.
  unfold after, emitted. rewrite schedule_run. cbv zeta.
  destruct (differs (storage s !! LAST_OPEN_KEY) (todayOf (now0 clk))) eqn:Hd; cbn.
  - split; [apply lookup_insert_eq|].
    intros Heq. apply differs_true in Hd. contradiction.
  - apply differs_false in Hd.
    split; [destruct b; [apply lookup_insert_eq | exact Hd]|].
    intros _. split; [|split; reflexivity].
    destruct b; [apply insert_id; exact Hd | reflexivity].
Qed.

(** The scheduling operation leaves the React state alone. *)
Lemma schedule_keeps_react_state (b : Build) (v : Verse) (clk : Reads) (s : State) :
  verse (after (schedule b v clk) s) = verse s /\
  loading (after (schedule b v clk) s) = loading s /\
  stage (after (schedule b v clk) s) = stage s.
Proof.
  unfold after. rewrite schedule_run. cbv zeta.
  destruct (differs _ _); cbn; repeat split; reflexivity.
Qed.

(** C1.  After every call of the scheduling operation, in either build, the
    stored LastOpenDate is today's date, whether or not the call scheduled a
    notification; when it already was today's date the call leaves the store
    and the pending notifications as they were and schedules nothing. *)
Theorem last_open_date_is_today (b : Build) (v : Verse) (clk : Reads) (s : State) :
  let today := todayOf (now0 clk) in
  outcome (schedule b v clk) s = Normal tt /\
  storage (after (schedule b v clk) s) !! LAST_OPEN_KEY = Some today /\
  (storage s !! LAST_OPEN_KEY = Some today ->
     storage (after (schedule b v clk) s) = storage s /\
     scheduled (after (schedule b v clk) s) = scheduled s /\
     emitted (schedule b v clk) s = []).
Proof.
  intros today. split; [|exact (schedule_stores_today b v clk s)].
  unfold outcome. rewrite schedule_run. cbv zeta.
  destruct (differs _ _); reflexivity.
Qed.


(** X18.  Two calls run one after the other, the second starting when the
    first has returned, on the same calendar day: whatever the store held
    before, the second call cancels nothing, schedules nothing and leaves the
    state as the first call left it, and the two calls together schedule at
    most one notification. *)
Theorem schedule_idempotent_within_day
    (b : Build) (v1 v2 : Verse) (clk1 clk2 : Reads) (s : State) :
  todayOf (now0 clk1) = todayOf (now0 clk2) ->
  let s1 := after (schedule b v1 clk1) s in
  let first := emitted (schedule b v1 clk1) s in
  let second := emitted (schedule b v2 clk2) s1 in
  second = [] /\
  after (schedule b v2 clk2) s1 = s1 /\
  (length (List.filter isSchedule (first ++ second)) <= 1)%nat.
Proof.
  intros Hday s1 first second.
  pose proof (schedule_stores_today b v1 clk1 s) as (Hkey & _).
  fold s1 in Hkey. rewrite Hday in Hkey.
  pose proof (schedule_stores_today b v2 clk2 s1) as (_ & Hsame).
  destruct (Hsame Hkey) as (Hst & Hsch & Hev). fold second in Hev.
  split; [exact Hev|]. split.
  - revert Hst Hsch. unfold after. rewrite (schedule_run b v2 clk2 s1). cbv zeta.
    destruct (differs (storage s1 !! LAST_OPEN_KEY) (todayOf (now0 clk2)));
      cbn; intros Hst Hsch; destruct s1; cbn in *; congruence.
  - rewrite Hev, app_nil_r. subst first. unfold emitted. rewrite schedule_run.
    cbv zeta. destruct (differs _ _); cbn; lia.
Qed.

(** C5.  Two calls on two different calendar days, the first of them on a day
    other than the stored one: each call first cancels every pending
    notification and then schedules exactly one, which is the only one
    pending when the call returns. *)
Theorem schedule_once_per_day
    (b : Build) (v1 v2 : Verse) (clk1 clk2 : Reads) (s : State) :
  storage s !! LAST_OPEN_KEY <> Some (todayOf (now0 clk1)) ->
  todayOf (now0 clk1) <> todayOf (now0 clk2) ->
  let s1 := after (schedule b v1 clk1) s in
  let s2 := after (schedule b v2 clk2) s1 in
  let n1 := request v1 (triggerOf b (now1 clk1) (now2 clk1)) in
  let n2 := request v2 (triggerOf b (now1 clk2) (now2 clk2)) in
  emitted (schedule b v1 clk1) s = [EvCancelAll; EvSchedule n1] /\
  scheduled s1 = [n1] /\
  emitted (schedule b v2 clk2) s1 = [EvCancelAll; EvSchedule n2] /\
  scheduled s2 = [n2].
Proof.
  intros H1 H2 s1 s2 n1 n2.
  pose proof (schedule_stores_today b v1 clk1 s) as (Hkey & _).
  fold s1 in Hkey.
  assert (H2' : storage s1 !! LAST_OPEN_KEY <> Some (todayOf (now0 clk2)))
    by (rewrite Hkey; congruence).
  apply differs_true in H1, H2'.
  subst s2. revert H2'. subst s1. unfold emitted, after.
  rewrite (schedule_run b v1 clk1 s). cbv zeta. rewrite H1. cbn.
  intros H2'. rewrite schedule_run. cbv zeta. cbn. rewrite H2'. cbn.
  repeat split; reflexivity.
Qed.


(** ** [fetchVerse] *)

Lemma bind_liftC {A B} (c : Completion A) (k : A -> M B) (s : State) :
  bind (liftC c) k s =
    match c with
    | Normal a => k a s
    | Throw e => (Throw e, s, [])
    end.
Proof.
  unfold bind, liftC. destruct c as [a|e]; [|reflexivity].
  destruct (k a s) as [[r s2] ev]. reflexivity.
Qed.

(** The [try] block either sets a verse or throws before any effect. *)
Lemma tryBlock_run (o : FetchOutcome) (s : State) :
  (exists v, tryBlock o s = setVerse v s) \/
  (exists e, tryBlock o s = (Throw e, s, [])).
Proof.
  unfold tryBlock.
  repeat (rewrite bind_liftC;
          match goal with
          | |- context [match ?c with Normal _ => _ | Throw _ => _ end] =>
              destruct c; [|right; eexists; reflexivity]
          end).
  left. eexists. reflexivity.
Qed.

(** Without a verse record the [try] block throws. *)
Lemma tryBlock_without_record (o : FetchOutcome) (s : State) :
  verseRecord o = None -> exists e, tryBlock o s = (Throw e, s, []).
Proof.
  intros H. unfold tryBlock. rewrite bind_liftC.
  destruct o as [| |json]; [eexists; reflexivity ..|].
  rewrite bind_liftC.
  destruct json as [|b|n|str|items|fields]; cbn [Get];
    try (repeat (rewrite bind_liftC; cbn [Get]); eexists; reflexivity).
  cbn in H. destruct (ownProperty fields "random_verse") as [[| | | | |]|];
    try discriminate; repeat (rewrite bind_liftC; cbn [Get]); eexists; reflexivity.
Qed.

(** [fetchVerse], once the request has settled, sets some verse, clears
    [loading] and returns: nothing thrown in the [try] block escapes. *)
Lemma fetchVerse_settled_run (o : FetchOutcome) (s : State) :
  exists v,
    fetchVerse_settled o s =
      (Normal tt,
       {| verse := v; loading := false; stage := stage s;
          storage := storage s; scheduled := scheduled s |}, []).
Proof.
  unfold fetchVerse_settled, bind, tryCatch.
  destruct (tryBlock_run o s) as [[v ->]|[e ->]]; cbn; eexists; reflexivity.
Qed.

Lemma tryBlock_indep (o : FetchOutcome) (s s' : State) :
  (exists v, tryBlock o s = setVerse v s /\ tryBlock o s' = setVerse v s') \/
  (exists e, tryBlock o s = (Throw e, s, []) /\ tryBlock o s' = (Throw e, s', [])).
Proof.
  unfold tryBlock.
  repeat (rewrite !bind_liftC;
          match goal with
          | |- context [match ?c with Normal _ => _ | Throw _ => _ end] =>
              destruct c; [|right; eexists; split; reflexivity]
          end).
  left. eexists. split; reflexivity.
Qed.

(** [fetchVerse], once the request has settled, sets the verse of the
    response, whatever the state. *)
Lemma fetchVerse_settled_fetched (o : FetchOutcome) (s : State) :
  fetchVerse_settled o s =
    (Normal tt,
     {| verse := fetchedVerse o; loading := false; stage := stage s;
        storage := storage s; scheduled := scheduled s |}, []).
Proof.
  unfold fetchedVerse, after, fetchVerse_settled, bind, tryCatch.
  destruct (tryBlock_indep o s (state (mount ∅ []))) as [(v & -> & ->)|(e & -> & ->)];
    reflexivity.
Qed.

Lemma fetchVerse_run (net : string -> FetchOutcome) (s : State) :
  exists v,
    fetchVerse net s =
      (Normal tt,
       {| verse := v; loading := false; stage := stage s;
          storage := storage s; scheduled := scheduled s |}, []).
Proof.
  unfold fetchVerse. unfold bind at 1. cbn [setLoading].
  match goal with |- context [fetchVerse_settled ?o ?s'] =>
    destruct (fetchVerse_settled_run o s') as [v ->] end.
  cbn. eexists. reflexivity.
Qed.

(** Without a verse record [fetchVerse] ends in the [catch] block. *)
Lemma fetchVerse_without_record (net : string -> FetchOutcome) (s : State) :
  verseRecord (net API_URL) = None ->
  fetchVerse net s =
    (Normal tt,
     {| verse := fallbackVerse; loading := false; stage := stage s;
        storage := storage s; scheduled := scheduled s |}, []).
Proof.
  intros H. unfold fetchVerse, fetchVerse_settled.
  unfold bind at 1. cbn [setLoading]. unfold bind at 1. unfold tryCatch.
  match goal with |- context [tryBlock ?o ?s'] =>
    destruct (tryBlock_without_record o s' H) as [e ->] end.
  reflexivity.
Qed.

(** A verse record with none of the four fields goes through the [try]
    block: [rv.text ?? ''] gives the text. *)
Lemma fetchVerse_bare_record (net : string -> FetchOutcome) (s : State) fields :
  verseRecord (net API_URL) = Some (JObj fields) ->
  ownProperty fields "text" = None ->
  ownProperty fields "book" = None ->
  ownProperty fields "chapter" = None ->
  ownProperty fields "verse" = None ->
  exists ref,
    fetchVerse net s =
      (Normal tt,
       {| verse := {| text := ""; reference := ref |}; loading := false;
          stage := stage s; storage := storage s; scheduled := scheduled s |}, []).
Proof.
  intros Hrec Ht Hb Hc Hv.
  unfold fetchVerse, fetchVerse_settled.
  unfold bind at 1. cbn [setLoading]. unfold bind at 1. unfold tryCatch.
  destruct (net API_URL) as [| |json]; try discriminate.
  destruct json as [| | | | |top]; try discriminate. cbn in Hrec.
  unfold tryBlock. rewrite !bind_liftC. cbn [Get].
  destruct (ownProperty top "random_verse") as [[| | | | |]|]; try discriminate.
  injection Hrec as ->.
  repeat (rewrite bind_liftC; cbn [Get nullish callTrim ToString];
          rewrite ?Ht, ?Hb, ?Hc, ?Hv).
  cbn. eexists. reflexivity.
Qed.

(** C2 (amended).  For a request that fails, a body that is not JSON, and a
    JSON body without a verse record, [fetchVerse] returns with the fallback
    verse: its text is not empty and its reference is empty.  A verse record
    that is present but holds none of the expected fields is used as it is:
    the text of the verse is then the empty string. *)
Theorem fetchVerse_fallback (net : string -> FetchOutcome) (s : State) :
  (verseRecord (net API_URL) = None ->
     outcome (fetchVerse net) s = Normal tt /\
     verse (after (fetchVerse net) s) = fallbackVerse /\
     text (verse (after (fetchVerse net) s)) <> "" /\
     reference (verse (after (fetchVerse net) s)) = "") /\
  (forall fields,
     verseRecord (net API_URL) = Some (JObj fields) ->
     ownProperty fields "text" = None ->
     ownProperty fields "book" = None ->
     ownProperty fields "chapter" = None ->
     ownProperty fields "verse" = None ->
     outcome (fetchVerse net) s = Normal tt /\
     text (verse (after (fetchVerse net) s)) = "").
Proof.
  split.
  - intros H. unfold outcome, after. rewrite (fetchVerse_without_record net s H).
    cbn. repeat split; discriminate.
  - intros fields Hrec Ht Hb Hc Hv. unfold outcome, after.
    destruct (fetchVerse_bare_record net s fields Hrec Ht Hb Hc Hv) as [ref ->].
    cbn. split; reflexivity.
Qed.

(** ** The event loop *)

Lemma eventsOf_app (id : nat) (h1 h2 : list Occurrence) :
  eventsOf id (h1 ++ h2) = eventsOf id h1 ++ eventsOf id h2.
Proof.
  induction h1 as [|o h1 IH]; [reflexivity|].
  destruct o as [| |k|k e]; cbn; try exact IH.
  destruct (decide (k = id)); cbn; congruence.
Qed.

Lemma eventsOf_own (id : nat) (evs : list Event) :
  eventsOf id (List.map (OTask id) evs) = evs.
Proof.
  induction evs as [|e evs IH]; [reflexivity|].
  cbn. destruct (decide (id = id)); congruence.
Qed.

Lemma eventsOf_other (id id' : nat) (evs : list Event) :
  id <> id' -> eventsOf id' (List.map (OTask id) evs) = [].
Proof.
  intros Hne. induction evs as [|e evs IH]; [reflexivity|].
  cbn. destruct (decide (id = id')); [contradiction|exact IH].
Qed.

Lemma in_history_task (id : nat) (e : Event) (h : list Occurrence) :
  In (OTask id e) h <-> In e (eventsOf id h).
Proof.
  induction h as [|o h IH]; [reflexivity|].
  destruct o as [| |k|k e']; cbn;
    try (rewrite <- IH; split; [intros [?|?]; [discriminate|assumption] | auto]).
  destruct (decide (k = id)) as [->|Hne]; cbn; rewrite <- IH.
  - split; intros [H|H]; auto; left; congruence.
  - split; [intros [H|H]; [congruence|assumption] | auto].
Qed.

(** What a resumed task does before it suspends again: it does not throw,
    its milestones extend those behind it in the order of its code, and the
    only stage it ever sets is ['open'], which the launch task does when the
    scheduling operation has returned. *)
Lemma resume_run (b : Build) (t : Task) (i : Input) (m : M Pc) (s : State) :
  resume b t i = Some m ->
  exists p' s' evs,
    m s = (Normal p', s', evs) /\
    progress (caller t) p' = progress (caller t) (pc t) ++ List.filter isMilestone evs /\
    (stage s' = stage s \/ stage s' = StageOpen) /\
    (In EvSchedulerReturned evs -> caller t = Launch -> stage s' = StageOpen) /\
    (forall g, In (EvSetStage g) evs -> g = StageOpen) /\
    (forall e, p' <> Rejected e).
Proof.
  destruct t as [c v p]. cbn [caller pc captured].
  destruct p; destruct i; cbn; intros H; try discriminate; injection H as <-.
  - (* the request settled *)
    unfold bind at 1. destruct (fetchVerse_settled_run o s) as [v' ->].
    destruct c; cbn; do 3 eexists; (split; [reflexivity|]); cbn;
      repeat split; try tauto; intros; intuition discriminate.
  - (* getItem resolved *)
    unfold bind at 1, getItem at 1.
    destruct c; (destruct (differs (storage s !! LAST_OPEN_KEY) today); [|destruct b]);
      cbn; do 3 eexists; (split; [reflexivity|]); cbn;
      repeat split; try tauto; intros; intuition (try discriminate; congruence).
  - (* cancelAll resolved *)
    destruct c; cbn; do 3 eexists; (split; [reflexivity|]); cbn;
      repeat split; try tauto; intros; intuition discriminate.
  - (* scheduleNotificationAsync resolved *)
    destruct c; cbn; do 3 eexists; (split; [reflexivity|]); cbn;
      repeat split; try tauto; intros; intuition discriminate.
  - (* setItem resolved *)
    destruct c; cbn; do 3 eexists; (split; [reflexivity|]); cbn;
      repeat split; try tauto; intros; intuition (try discriminate; congruence).
Qed.


Lemma Inv_mount (store : gmap string string) (pending : list Notification) :
  Inv (mount store pending).
Proof.
  split; cbn [mount state tasks history stage].
  - discriminate.
  - discriminate.
  - intros _. split; [reflexivity|]. intros id [].
  - cbn. lia.
  - intros [|id] t H; cbn in H; [|discriminate].
    injection H as <-. cbn. tauto.
  - reflexivity.
  - intros id g [].
  - intros [|id] t e H; cbn in H; [|discriminate].
    injection H as <-. discriminate.
Qed.

Lemma Inv_stepTask (b : Build) (a a' : App) (id : nat) (i : Input) :
  Inv a -> stepTask b a id i = Some a' -> Inv a'.
Proof.
  intros [Hturn Hdisp Hload Hlaunch Htasks Hfresh Hset Hcaught]. unfold stepTask.
  destruct (tasks a !! id) as [t|] eqn:Ht; [|discriminate].
  destruct (resume b t i) as [m|] eqn:Hm; [|discriminate].
  destruct (resume_run b t i m (state a) Hm)
    as (p' & s' & evs & -> & Hprog & Hstage & Hret & Hopen & Hnorm).
  intros H. injection H as <-.
  assert (Hid : (id < length (tasks a))%nat) by (eapply lookup_lt_Some; exact Ht).
  destruct (Htasks id t Ht) as [Hcaller Hmile].
  assert (Hev : forall k,
             eventsOf k (history a ++ List.map (OTask id) evs) =
               eventsOf k (history a) ++ (if decide (id = k) then evs else [])).
  { intros k. rewrite eventsOf_app. destruct (decide (id = k)) as [<-|Hne].
    - rewrite eventsOf_own. reflexivity.
    - rewrite eventsOf_other by exact Hne. reflexivity. }
  split; cbn [state tasks history fontsLoaded].
  - destruct Hstage as [->| ->]; [exact Hturn|discriminate].
  - intros Hd. apply in_or_app. left. apply Hdisp.
    destruct Hstage as [<-| Ho]; [exact Hd|congruence].
  - intros Hl.
    assert (Hl0 : stage (state a) = StageLoading)
      by (destruct Hstage as [<-| Ho]; [exact Hl|congruence]).
    destruct (Hload Hl0) as [Hlen Hnone].
    rewrite length_insert. split; [exact Hlen|].
    intros k. rewrite Hev. intros Hin. apply in_app_or in Hin as [Hin|Hin].
    + exact (Hnone k Hin).
    + destruct (decide (id = k)) as [<-|]; [|destruct Hin].
      assert (id = 0%nat) by lia.
      assert (Ho : stage s' = StageOpen) by (apply Hret; [exact Hin|tauto]).
      congruence.
  - rewrite length_insert. exact Hlaunch.
  - intros k t' Hk. rewrite Hev.
    destruct (decide (id = k)) as [<-|Hne].
    + rewrite list_lookup_insert_eq in Hk by exact Hid. injection Hk as <-.
      cbn [caller pc]. split; [exact Hcaller|].
      rewrite List.filter_app, Hmile. symmetry. exact Hprog.
    + rewrite list_lookup_insert_ne in Hk by exact Hne.
      rewrite app_nil_r. exact (Htasks k t' Hk).
  - intros k Hk. rewrite length_insert in Hk. rewrite Hev.
    destruct (decide (id = k)) as [<-|]; [lia|].
    rewrite app_nil_r. exact (Hfresh k Hk).
  - intros k g. rewrite Hev. intros Hin. apply in_app_or in Hin as [Hin|Hin].
    + exact (Hset k g Hin).
    + destruct (decide (id = k)); [exact (Hopen g Hin)|destruct Hin].
  - intros k t' e Hk.
    destruct (decide (id = k)) as [<-|Hne].
    + rewrite list_lookup_insert_eq in Hk by exact Hid. injection Hk as <-.
      cbn [pc]. apply Hnorm.
    + rewrite list_lookup_insert_ne in Hk by exact Hne.
      exact (Hcaught k t' e Hk).
Qed.

Lemma Inv_step (b : Build) (a a' : App) (i : Input) :
  Inv a -> step b a i = Some a' -> Inv a'.
Proof.
  intros HI.
  destruct i; cbn [step taskOf]; try (apply Inv_stepTask; exact HI).
  - (* FontsLoaded *)
    destruct HI as [Hturn Hdisp Hload Hlaunch Htasks Hfresh Hset Hcaught].
    intros H. injection H as <-.
    assert (Hev : forall k, eventsOf k (history a ++ [OFontsLoaded]) = eventsOf k (history a))
      by (intros k; rewrite eventsOf_app; apply app_nil_r).
    split; cbn [state tasks history fontsLoaded]; try assumption.
    + intros Hd. apply in_or_app. left. exact (Hdisp Hd).
    + intros Hl. destruct (Hload Hl) as [Hlen Hnone]. split; [exact Hlen|].
      intros k. rewrite Hev. exact (Hnone k).
    + intros k t Hk. rewrite Hev. exact (Htasks k t Hk).
    + intros k Hk. rewrite Hev. exact (Hfresh k Hk).
    + intros k g. rewrite Hev. exact (Hset k g).
  - (* AnimationFinish *)
    destruct HI as [Hturn Hdisp Hload Hlaunch Htasks Hfresh Hset Hcaught].
    destruct (fontsLoaded a && lottieMounted (stage (state a))); [|discriminate].
    cbn. intros H. injection H as <-.
    assert (Hev : forall k, eventsOf k (history a ++ [OAnimationFinish]) = eventsOf k (history a))
      by (intros k; rewrite eventsOf_app; apply app_nil_r).
    split; cbn [state tasks history fontsLoaded stage]; try assumption; try discriminate.
    + intros _. apply in_or_app. right. left. reflexivity.
    + intros k t Hk. rewrite Hev. exact (Htasks k t Hk).
    + intros k Hk. rewrite Hev. exact (Hfresh k Hk).
    + intros k g. rewrite Hev. exact (Hset k g).
  - (* PressRefresh *)
    destruct HI as [Hturn Hdisp Hload Hlaunch Htasks Hfresh Hset Hcaught].
    destruct (fontsLoaded a && negb (loading (state a))); [|discriminate].
    cbn. intros H. injection H as <-.
    set (n := length (tasks a)) in *.
    assert (Hev : forall k,
               eventsOf k (history a ++
                             [ORefreshPressed n; OTask n (EvSetStage StageOpen)]) =
                 eventsOf k (history a) ++
                   (if decide (n = k) then [EvSetStage StageOpen] else [])).
    { intros k. rewrite eventsOf_app. cbn. destruct (decide (n = k)); reflexivity. }
    split; cbn [state tasks history fontsLoaded stage]; try discriminate.
    + rewrite length_app. cbn. lia.
    + intros k t Hk. rewrite Hev.
      destruct (decide (n = k)) as [<-|Hne].
      * rewrite lookup_app_r in Hk by (subst n; lia).
        replace (n - length (tasks a))%nat with 0%nat in Hk by (subst n; lia).
        injection Hk as <-. cbn [caller pc progress].
        rewrite (Hfresh n) by (subst n; lia). cbn.
        split; [|reflexivity]. split; [discriminate|subst n; lia].
      * assert (Hlt : (k < n)%nat).
        { apply lookup_lt_Some in Hk. rewrite length_app in Hk. cbn in Hk.
          subst n. lia. }
        rewrite lookup_app_l in Hk by exact Hlt.
        rewrite app_nil_r. exact (Htasks k t Hk).
    + intros k Hk. rewrite length_app in Hk. cbn in Hk. rewrite Hev.
      destruct (decide (n = k)); [subst n; lia|].
      rewrite app_nil_r. apply Hfresh. subst n. lia.
    + intros k g. rewrite Hev. intros Hin. apply in_app_or in Hin as [Hin|Hin].
      * exact (Hset k g Hin).
      * destruct (decide (n = k)); [|destruct Hin].
        destruct Hin as [Hin|[]]. congruence.
    + intros k t e Hk.
      destruct (decide (k < n)%nat) as [Hlt|Hge].
      * rewrite lookup_app_l in Hk by exact Hlt. exact (Hcaught k t e Hk).
      * rewrite lookup_app_r in Hk by lia.
        destruct (k - length (tasks a))%nat; cbn in Hk; [|discriminate].
        injection Hk as <-. discriminate.
Qed.

Lemma Inv_run (b : Build) (inputs : list Input) :
  forall a a', Inv a -> run b a inputs = Some a' -> Inv a'.
Proof.
  induction inputs as [|i rest IH]; intros a a' HI; cbn.
  - intros H. injection H as <-. exact HI.
  - destruct (step b a i) as [a1|] eqn:Hs; [|discriminate].
    apply IH. exact (Inv_step b a a1 i HI Hs).
Qed.

Lemma Inv_reachable (b : Build) (a : App) : reachable b a -> Inv a.
Proof.
  intros (store & pending & inputs & H).
  exact (Inv_run b inputs _ _ (Inv_mount store pending) H).
Qed.


(** The mount effect in terms of [fetchVerse] and of the scheduling operation. *)
Lemma launchEffect_unfold (b : Build) (v : Verse)
    (net : string -> FetchOutcome) (clk : Reads) (s : State) :
  launchEffect b v net clk s =
    let '(_, s1, _) := fetchVerse net s in
    let '(_, s2, calls) := schedule b v clk s1 in
    (Normal tt,
     {| verse := verse s2; loading := loading s2; stage := StageOpen;
        storage := storage s2; scheduled := scheduled s2 |},
     EvFetchVerseReturned :: calls ++ [EvSchedulerReturned; EvSetStage StageOpen]).
Proof.
  unfold launchEffect. unfold bind at 1.
  destruct (fetchVerse_run net s) as [v' ->].
  unfold bind at 1. cbn [emit]. unfold bind at 1.
  rewrite schedule_run. cbv zeta. destruct (differs _ _); reflexivity.
Qed.

(** [handleRefresh] in terms of [fetchVerse] and of the scheduling operation. *)
Lemma handleRefresh_unfold (b : Build) (v : Verse)
    (net : string -> FetchOutcome) (clk : Reads) (s : State) :
  handleRefresh b v net clk s =
    let '(_, s1, _) := fetchVerse net (after (setStage StageOpen) s) in
    let '(_, s2, calls) := schedule b v clk s1 in
    (Normal tt, s2,
     EvSetStage StageOpen :: EvFetchVerseReturned :: calls ++ [EvSchedulerReturned]).
Proof.
  unfold handleRefresh, after. unfold bind at 1. cbn [setStage fst snd].
  unfold bind at 1.
  match goal with |- context [fetchVerse net ?s'] =>
    destruct (fetchVerse_run net s') as [v' ->] end.
  unfold bind at 1. cbn [emit]. unfold bind at 1.
  rewrite schedule_run. cbv zeta. destruct (differs _ _); destruct s; reflexivity.
Qed.

(** C8.  In every execution of the screen the stage is ['display'] only if
    an animation-finish event occurred earlier, and it is ['loading'] only
    as long as no fetch-and-schedule sequence has completed. *)
Theorem display_only_after_animation_finish (b : Build) (a : App) :
  reachable b a ->
  (stage (state a) = StageDisplay -> In OAnimationFinish (history a)) /\
  (stage (state a) = StageLoading ->
     forall id, ~ In (OTask id EvSchedulerReturned) (history a)).
Proof.
  intros Hr. destruct (Inv_reachable b a Hr) as [_ Hdisp Hload _ _ _ _ _].
  split; [exact Hdisp|].
  intros Hl id Hin. apply in_history_task in Hin.
  destruct (Hload Hl) as [_ Hnone]. exact (Hnone id Hin).
Qed.

(** What a resumed task adds to what it has done. *)
Lemma resume_trace (b : Build) (t : Task) (i : Input) (m : M Pc) (s : State)
    (evs0 : list Event) :
  resume b t i = Some m ->
  traceAt (caller t) (pc t) evs0 ->
  exists p' s' evs,
    m s = (Normal p', s', evs) /\ traceAt (caller t) p' (evs0 ++ evs).
Proof.
  destruct t as [c v p]. cbn [caller pc captured].
  destruct p; destruct i; cbn [resume pc caller captured]; intros H; try discriminate;
    injection H as <-; cbn [traceAt].
  - (* the request settled *)
    intros ->. unfold bind at 1. destruct (fetchVerse_settled_run o s) as [v' ->].
    cbn. do 3 eexists. split; reflexivity.
  - (* getItem resolved *)
    intros ->. unfold bind at 1, getItem at 1.
    destruct (differs (storage s !! LAST_OPEN_KEY) today); [|destruct b];
      destruct c; cbn; do 3 eexists; (split; [reflexivity|]); cbn;
      try reflexivity; exists []; (split; [left; reflexivity|reflexivity]).
  - (* cancelAll resolved *)
    intros ->. destruct c; cbn; do 3 eexists; (split; [reflexivity|]); reflexivity.
  - (* scheduleNotificationAsync resolved *)
    intros ->. destruct c; cbn; do 3 eexists; (split; [reflexivity|]); cbn;
      eexists; (split; [right; eexists; reflexivity|reflexivity]).
  - (* setItem resolved *)
    intros (calls & Hc & ->).
    destruct c; cbn; do 3 eexists; (split; [reflexivity|]); cbn;
      exists calls; (split; [exact Hc|]); cbn; rewrite <- ?app_assoc; reflexivity.
Qed.

Lemma trace_stepTask (b : Build) (a a' : App) (k : nat) (i : Input) :
  (forall id t, tasks a !! id = Some t ->
     traceAt (caller t) (pc t) (eventsOf id (history a))) ->
  stepTask b a k i = Some a' ->
  forall id t, tasks a' !! id = Some t ->
    traceAt (caller t) (pc t) (eventsOf id (history a')).
Proof.
  intros HT. unfold stepTask.
  destruct (tasks a !! k) as [t0|] eqn:Hk; [|discriminate].
  destruct (resume b t0 i) as [m|] eqn:Hm; [|discriminate].
  destruct (resume_trace b t0 i m (state a) _ Hm (HT k t0 Hk))
    as (p' & s' & evs & -> & Htr).
  intros H. injection H as <-. cbn [tasks history]. intros id t Ht.
  assert (Hlen : (k < length (tasks a))%nat) by (eapply lookup_lt_Some; exact Hk).
  rewrite eventsOf_app.
  destruct (decide (k = id)) as [<-|Hne].
  - rewrite list_lookup_insert_eq in Ht by exact Hlen. injection Ht as <-.
    cbn [caller pc]. rewrite eventsOf_own. exact Htr.
  - rewrite list_lookup_insert_ne in Ht by exact Hne.
    rewrite eventsOf_other by exact Hne. rewrite app_nil_r. exact (HT id t Ht).
Qed.

Lemma trace_step (b : Build) (a a' : App) (i : Input) :
  Inv a ->
  (forall id t, tasks a !! id = Some t ->
     traceAt (caller t) (pc t) (eventsOf id (history a))) ->
  step b a i = Some a' ->
  forall id t, tasks a' !! id = Some t ->
    traceAt (caller t) (pc t) (eventsOf id (history a')).
Proof.
  intros HI HT.
  destruct i; cbn [step taskOf].
  - (* FontsLoaded *)
    intros H. injection H as <-. cbn [tasks history]. intros id t Ht.
    rewrite eventsOf_app. cbn. rewrite app_nil_r. exact (HT id t Ht).
  - (* AnimationFinish *)
    destruct (fontsLoaded a && lottieMounted (stage (state a))); [|discriminate].
    cbn. intros H. injection H as <-. cbn [tasks history]. intros id t Ht.
    rewrite eventsOf_app. cbn. rewrite app_nil_r. exact (HT id t Ht).
  - (* PressRefresh *)
    destruct (fontsLoaded a && negb (loading (state a))); [|discriminate].
    cbn. intros H. injection H as <-. cbn [tasks history]. intros id t Ht.
    rewrite eventsOf_app. cbn.
    destruct (decide (length (tasks a) = id)) as [<-|Hne].
    + rewrite lookup_app_r in Ht by lia.
      replace (length (tasks a) - length (tasks a))%nat with 0%nat in Ht by lia.
      injection Ht as <-. cbn.
      rewrite (inv_fresh a HI (length (tasks a))) by lia. reflexivity.
    + assert (Hlt : (id < length (tasks a))%nat).
      { apply lookup_lt_Some in Ht. rewrite length_app in Ht. cbn in Ht. lia. }
      rewrite lookup_app_l in Ht by exact Hlt.
      rewrite app_nil_r. exact (HT id t Ht).
  - apply trace_stepTask; exact HT.
  - apply trace_stepTask; exact HT.
  - apply trace_stepTask; exact HT.
  - apply trace_stepTask; exact HT.
  - apply trace_stepTask; exact HT.
Qed.

Lemma trace_reachable (b : Build) (a : App) :
  reachable b a ->
  forall id t, tasks a !! id = Some t ->
    traceAt (caller t) (pc t) (eventsOf id (history a)).
Proof.
  intros (store & pending & inputs & Hrun).
  assert (H0 : forall id t, tasks (mount store pending) !! id = Some t ->
                 traceAt (caller t) (pc t) (eventsOf id (history (mount store pending)))).
  { intros [|id] t H; cbn in H; [|discriminate]. injection H as <-. reflexivity. }
  pose proof (Inv_mount store pending) as HI.
  revert Hrun HI H0. generalize (mount store pending).
  induction inputs as [|i rest IH]; intros a0; cbn.
  - intros [= <-] _ H. exact H.
  - destruct (step b a0 i) as [a1|] eqn:Hs; [|discriminate].
    intros Hrun HI HT.
    exact (IH a1 Hrun (Inv_step b a0 a1 i HI Hs) (trace_step b a0 a1 i HI HT Hs)).
Qed.

(** What the trace of a suspended task says of the whole: it begins the trace
    of a finished task, and is all of it once the task has finished. *)
Lemma traceAt_prefix (c : Caller) (v : Verse) (p : Pc) (evs : list Event) :
  traceAt c p evs ->
  exists calls,
    schedulerCalls calls /\
    evs `prefix_of`
      before c ++ EvFetchVerseReturned :: calls ++ EvSchedulerReturned :: afterwards c /\
    (p = Finished ->
       evs = before c ++ EvFetchVerseReturned :: calls
               ++ EvSchedulerReturned :: afterwards c).
Proof.
  destruct p; cbn [traceAt].
  - intros ->. exists []. split; [left; reflexivity|]. split; [|discriminate].
    destruct c; eexists; reflexivity.
  - intros ->. exists []. split; [left; reflexivity|]. split; [|discriminate].
    destruct c; eexists; reflexivity.
  - intros ->. exists []. split; [left; reflexivity|]. split; [|discriminate].
    destruct c; eexists; reflexivity.
  - intros ->. exists [EvCancelAll; EvSchedule (request v tr)].
    split; [right; eexists; reflexivity|]. split; [|discriminate].
    destruct c; eexists; reflexivity.
  - intros (calls & Hc & ->). exists calls. split; [exact Hc|]. split; [|discriminate].
    destruct c; eexists; cbn; reflexivity.
  - intros (calls & Hc & ->). exists calls. split; [exact Hc|].
    split; [|intros _; reflexivity]. eexists. rewrite app_nil_r. reflexivity.
  - intros [].
Qed.

(** C9.  Run without interleaving, the mount effect is the verse fetch, then
    the scheduling operation on the state the fetch left, then the stage set
    to ['open'], the stage being untouched until then; the refresh handler sets
    the stage to ['open'] first and then runs the fetch and the scheduling
    operation in that same order.  In every interleaved execution each task
    has done a beginning of that sequence, with the calls of the scheduling
    operation between the return of the fetch and its own return, and all of it
    once it has finished. *)
Theorem control_flow_order (b : Build) :
  (forall v net clk s,
     let s1 := after (fetchVerse net) s in
     let s2 := after (schedule b v clk) s1 in
     outcome (launchEffect b v net clk) s = Normal tt /\
     after (launchEffect b v net clk) s = after (setStage StageOpen) s2 /\
     emitted (launchEffect b v net clk) s =
       emitted (fetchVerse net) s ++ EvFetchVerseReturned ::
       emitted (schedule b v clk) s1 ++ [EvSchedulerReturned; EvSetStage StageOpen] /\
     stage s2 = stage s) /\
  (forall v net clk s,
     let s0 := after (setStage StageOpen) s in
     let s1 := after (fetchVerse net) s0 in
     outcome (handleRefresh b v net clk) s = Normal tt /\
     after (handleRefresh b v net clk) s = after (schedule b v clk) s1 /\
     emitted (handleRefresh b v net clk) s =
       EvSetStage StageOpen :: emitted (fetchVerse net) s0 ++ EvFetchVerseReturned ::
       emitted (schedule b v clk) s1 ++ [EvSchedulerReturned]) /\
  (forall a id t,
     reachable b a -> tasks a !! id = Some t ->
     (caller t = Launch <-> id = 0%nat) /\
     exists calls,
       schedulerCalls calls /\
       eventsOf id (history a) `prefix_of`
         before (caller t) ++ EvFetchVerseReturned :: calls
           ++ EvSchedulerReturned :: afterwards (caller t) /\
       (pc t = Finished ->
          eventsOf id (history a) =
            before (caller t) ++ EvFetchVerseReturned :: calls
              ++ EvSchedulerReturned :: afterwards (caller t))).
Proof.
  split; [|split].
  - intros v net clk s. cbv zeta. unfold outcome, after, emitted.
    rewrite launchEffect_unfold.
    destruct (fetchVerse_run net s) as [v' ->]. cbn [fst snd].
    pose proof (schedule_keeps_react_state b v clk
                  {| verse := v'; loading := false; stage := stage s;
                     storage := storage s; scheduled := scheduled s |})
      as (_ & _ & Hst).
    unfold after in Hst.
    destruct (schedule b v clk _) as [[r s2] calls]. cbn in *.
    repeat split; try reflexivity. exact Hst.
  - intros v net clk s. cbv zeta. unfold outcome, after, emitted.
    rewrite handleRefresh_unfold. unfold after. cbn [setStage fst snd].
    match goal with |- context [fetchVerse net ?s'] =>
      destruct (fetchVerse_run net s') as [v' ->] end.
    cbn [fst snd].
    destruct (schedule b v clk _) as [[r s2] calls]. cbn.
    repeat split; reflexivity.
  - intros a id t Hr Ht.
    destruct (Inv_reachable b a Hr) as [_ _ _ _ Htasks _ _ _].
    destruct (Htasks id t Ht) as [Hc _]. split; [exact Hc|].
    apply (traceAt_prefix _ (captured t) (pc t)). exact (trace_reachable b a Hr id t Ht).
Qed.

(** C4.  A refresh whose scheduling overlaps that of the launch, on the same
    calendar day: both calls read a stored date other than today before
    either writes it, so the second call too cancels and schedules, and two
    notifications are pending at the end. *)
Theorem overlapping_calls_schedule_twice (b : Build)
    (store : gmap string string) (pending : list Notification)
    (o0 o1 : FetchOutcome) (c0 c1 : Reads) :
  store !! LAST_OPEN_KEY <> Some (todayOf (now0 c0)) ->
  todayOf (now0 c1) = todayOf (now0 c0) ->
  exists a n0 n1,
    run b (mount store pending) (overlap o0 o1 c0 c1) = Some a /\
    scheduled (state a) = [n0; n1] /\
    List.map pc (tasks a) = [Finished; Finished] /\
    eventsOf 0 (history a) =
      [EvFetchVerseReturned; EvCancelAll; EvSchedule n0;
       EvSchedulerReturned; EvSetStage StageOpen] /\
    eventsOf 1 (history a) =
      [EvSetStage StageOpen; EvFetchVerseReturned; EvCancelAll; EvSchedule n1;
       EvSchedulerReturned] /\
    storage (state a) !! LAST_OPEN_KEY = Some (todayOf (now0 c0)).
Proof.
  intros Hd Hday. apply differs_true in Hd.
  unfold overlap.
  cbn [run step].
  cbn [run step taskOf]. unfold stepTask at 1.
  cbn [tasks lookup list_lookup state resume pc caller captured history fontsLoaded mount].
  unfold bind at 1.
  match goal with |- context [fetchVerse_settled o0 ?s] =>
    destruct (fetchVerse_settled_run o0 s) as [v0 ->] end.
  cbn -[todayOf triggerOf request differs].
  unfold bind at 1.
  match goal with |- context [fetchVerse_settled o1 ?s] =>
    destruct (fetchVerse_settled_run o1 s) as [v1 ->] end.
  cbn -[todayOf triggerOf request differs].
  unfold stepTask at 1.
  cbn -[todayOf triggerOf request differs stepTask].
  rewrite Hd.
  cbn -[todayOf triggerOf request differs stepTask].
  unfold stepTask at 1.
  cbn -[todayOf triggerOf request differs stepTask].
  rewrite Hday, Hd.
  cbn -[todayOf triggerOf request differs].
  do 3 eexists. split; [reflexivity|].
  cbn -[todayOf triggerOf request].
  repeat split; try reflexivity. apply lookup_insert_eq.
Qed.

(** C6.  On a first launch that schedules, the request has the default body
    of the locale, whatever verse the fetch has put in the state by then: the
    mount effect closes over the verse of the first render.  A refresh that
    schedules, on a later day, gives its request the text of the verse that
    was on screen when the button was pressed (the default body if that text
    is empty), not the text of the verse it has just fetched. *)
Theorem scheduled_body_is_stale (b : Build)
    (store : gmap string string) (pending : list Notification)
    (o0 o1 : FetchOutcome) (c0 c1 : Reads) :
  store !! LAST_OPEN_KEY <> Some (todayOf (now0 c0)) ->
  todayOf (now0 c1) <> todayOf (now0 c0) ->
  exists a1 a2 n0 n1,
    run b (mount store pending) (firstLaunch o0 c0) = Some a1 /\
    verse (state a1) = fetchedVerse o0 /\
    scheduled (state a1) = [n0] /\
    body n0 = NOTIF_BODY /\
    run b a1 (laterRefresh o1 c1) = Some a2 /\
    verse (state a2) = fetchedVerse o1 /\
    scheduled (state a2) = [n1] /\
    body n1 = (if decide (text (fetchedVerse o0) = "") then NOTIF_BODY
               else text (fetchedVerse o0)).
Proof.
  intros Hd Hday. apply differs_true in Hd.
  assert (Hd1 : differs (Some (todayOf (now0 c0))) (todayOf (now0 c1)) = true)
    by (apply differs_true; congruence).
  unfold firstLaunch, laterRefresh.
  cbn [run step taskOf]. unfold stepTask at 1.
  cbn [tasks lookup list_lookup state resume pc caller captured history fontsLoaded mount].
  unfold bind at 1. rewrite fetchVerse_settled_fetched.
  cbn -[todayOf triggerOf request differs stepTask fetchedVerse].
  unfold stepTask at 1.
  cbn -[todayOf triggerOf request differs stepTask fetchedVerse].
  rewrite Hd.
  cbn -[todayOf triggerOf request differs fetchedVerse].
  eexists. eexists. eexists. eexists.
  split; [reflexivity|].
  cbn -[todayOf triggerOf request differs fetchedVerse stepTask].
  split; [reflexivity|]. split; [reflexivity|]. split; [reflexivity|].
  unfold stepTask at 1.
  cbn -[todayOf triggerOf request differs stepTask fetchedVerse].
  unfold bind at 1. rewrite fetchVerse_settled_fetched.
  cbn -[todayOf triggerOf request differs stepTask fetchedVerse].
  unfold stepTask at 1.
  cbn -[todayOf triggerOf request differs stepTask fetchedVerse].
  rewrite lookup_insert_eq, Hd1.
  cbn -[todayOf triggerOf request differs fetchedVerse].
  split; [reflexivity|].
  cbn -[todayOf triggerOf request fetchedVerse].
  repeat split; reflexivity.
Qed.

(** C10.  In every reachable state the stage is ['loading'], ['open'] or
    ['display']: the tasks only ever set it to ['open'] and the animation
    callback to ['display'], so ['turn'] is never reached and the animation
    is mounted exactly when the stage is ['open']. *)
Theorem stage_is_never_turn (b : Build) (a : App) :
  reachable b a ->
  stage (state a) <> StageTurn /\
  (stage (state a) = StageLoading \/ stage (state a) = StageOpen \/
   stage (state a) = StageDisplay) /\
  (forall id g, In (OTask id (EvSetStage g)) (history a) -> g = StageOpen) /\
  lottieMounted (stage (state a)) = bool_decide (stage (state a) = StageOpen).
Proof.
  intros Hr. destruct (Inv_reachable b a Hr) as [Hturn _ _ _ _ _ Hset _].
  split; [exact Hturn|]. split; [|split].
  - destruct (stage (state a)); tauto.
  - intros id g Hin. apply in_history_task in Hin. exact (Hset id g Hin).
  - unfold lottieMounted. destruct (stage (state a)); try reflexivity. contradiction.
Qed.


(** X13.  The launch task left alone by the event loop does what
    [launchEffect] does: same final state, same events. *)
Lemma launch_alone (b : Build) (net : string -> FetchOutcome) (clk : Reads)
    (store : gmap string string) (pending : list Notification) :
  let a0 := mount store pending in
  exists a,
    run b a0 (launchInputs b net clk (store !! LAST_OPEN_KEY)) = Some a /\
    state a = after (launchEffect b initialVerse net clk) (state a0) /\
    history a = List.map (OTask 0%nat) (emitted (launchEffect b initialVerse net clk) (state a0)) /\
    List.map pc (tasks a) = [Finished].
Proof.
  cbv zeta.
  set (s0 := state (mount store pending)).
  destruct (fetchVerse_settled_run (net API_URL) s0) as [v' Hf].
  assert (HR : launchEffect b initialVerse net clk s0 =
      let '(_, s2, calls) := schedule b initialVerse clk
         {| verse := v'; loading := false; stage := stage s0; storage := storage s0; scheduled := scheduled s0 |} in
      (Normal tt, {| verse := verse s2; loading := loading s2; stage := StageOpen; storage := storage s2; scheduled := scheduled s2 |},
       EvFetchVerseReturned :: calls ++ [EvSchedulerReturned; EvSetStage StageOpen])).
  { unfold launchEffect, fetchVerse. unfold bind at 1. unfold bind at 1.
    cbn [setLoading]. 
    change {| verse := verse s0; loading := true; stage := stage s0; storage := storage s0; scheduled := scheduled s0 |} with s0.
    rewrite Hf. unfold bind at 1. cbn [emit]. unfold bind at 1.
    rewrite schedule_run. cbv zeta. destruct (differs _ _); reflexivity. }
  assert (H1 : step b (mount store pending) (FetchSettled 0 (net API_URL) (now0 clk)) =
      Some {| state := {| verse := v'; loading := false; stage := StageLoading;
                          storage := store; scheduled := pending |};
              fontsLoaded := false;
              tasks := [ {| caller := Launch; captured := initialVerse;
                            pc := AwaitGetItem (todayOf (now0 clk)) |} ];
              history := [OTask 0%nat EvFetchVerseReturned] |}).
  { cbn [step taskOf]. unfold stepTask.
    cbn [mount tasks lookup list_lookup resume pc caller captured].
    unfold bind at 1. fold s0. rewrite Hf. reflexivity. }
  unfold after, emitted. rewrite HR, schedule_run. cbv zeta.
  unfold launchInputs. cbn [app run]. rewrite H1. cbn [storage s0 mount state].
  destruct (differs (store !! LAST_OPEN_KEY) (todayOf (now0 clk))) eqn:Hd.
  - cbn [run step taskOf]. unfold stepTask at 1.
    cbn [tasks lookup list_lookup state resume pc caller captured history fontsLoaded].
    unfold bind at 1, getItem at 1. cbn [storage]. rewrite Hd.
    cbn -[todayOf triggerOf request]. eexists. repeat split; reflexivity.
  - cbn [run step taskOf]. unfold stepTask at 1.
    cbn [tasks lookup list_lookup state resume pc caller captured history fontsLoaded].
    unfold bind at 1, getItem at 1. cbn [storage]. rewrite Hd.
    destruct b; cbn -[todayOf]; eexists; repeat split; reflexivity.
Qed.


(** ** Further properties of [fetchVerse] *)

Lemma append_length (a b : string) :
  String.length (a +:+ b) = (String.length a + String.length b)%nat.
Proof.
  induction a as [|c a IH]; [reflexivity|].
  change (S (String.length (a +:+ b)) = S (String.length a + String.length b)).
  f_equal. exact IH.
Qed.

Lemma append_empty_r (a : string) : a +:+ "" = a.
Proof.
  induction a as [|c a IH]; [reflexivity|].
  change (String c (a +:+ "") = String c a). f_equal. exact IH.
Qed.

Lemma append_inj (a1 a2 b1 b2 : string) :
  String.length a1 = String.length a2 ->
  a1 +:+ b1 = a2 +:+ b2 -> a1 = a2 /\ b1 = b2.
Proof.
  revert a2. induction a1 as [|c a1 IH]; intros [|c2 a2] Hl H; try discriminate.
  - split; [reflexivity|exact H].
  - injection Hl as Hl.
    change (String c (a1 +:+ b1) = String c2 (a2 +:+ b2)) in H.
    injection H as -> H.
    destruct (IH a2 Hl H) as [-> ->]. split; reflexivity.
Qed.

Lemma stripPrefix_Some (p l l' : list nat) :
  stripPrefix p l = Some l' <-> l = p ++ l'.
Proof.
  revert l. induction p as [|a p IH]; intros l; cbn.
  - split; [intros [= ->]; reflexivity | intros ->; reflexivity].
  - destruct l as [|x l]; [split; discriminate|].
    destruct (Nat.eqb_spec a x) as [->|Hne].
    + rewrite IH. split; [intros ->; reflexivity | intros [= ->]; reflexivity].
    + split; [discriminate | intros [= -> _]; contradiction].
Qed.

Lemma stripOne_Some (codes : list (list nat)) (l l' : list nat) :
  stripOne codes l = Some l' -> exists c, In c codes /\ l = c ++ l'.
Proof.
  induction codes as [|c codes IH]; cbn; [discriminate|].
  destruct (stripPrefix c l) as [r|] eqn:Hp.
  - intros [= ->]. exists c. split; [left; reflexivity|].
    apply stripPrefix_Some. exact Hp.
  - intros H. destruct (IH H) as (c' & Hin & ->). exists c'. split; [right; exact Hin|reflexivity].
Qed.

Lemma stripOne_None (codes : list (list nat)) (l : list nat) :
  stripOne codes l = None -> forall c l', In c codes -> l <> c ++ l'.
Proof.
  induction codes as [|c codes IH]; cbn; [intros _ c l' []|].
  destruct (stripPrefix c l) as [r|] eqn:Hp; [discriminate|].
  intros H c' l' [<-|Hin] Heq.
  - apply stripPrefix_Some in Heq. congruence.
  - exact (IH H c' l' Hin Heq).
Qed.

Lemma stripAll_suffix (fuel : nat) (codes : list (list nat)) :
  forall l, exists p, l = p ++ stripAll fuel codes l.
Proof.
  induction fuel as [|fuel IH]; intros l; cbn; [exists []; reflexivity|].
  destruct (stripOne codes l) as [l'|] eqn:Hs; [|exists []; reflexivity].
  destruct (stripOne_Some _ _ _ Hs) as (c & _ & ->).
  destruct (IH l') as [p Hp]. exists (c ++ p). rewrite <- app_assoc, <- Hp. reflexivity.
Qed.

Lemma stripAll_done (fuel : nat) (codes : list (list nat)) :
  (forall c, In c codes -> c <> []) ->
  forall l, (length l <= fuel)%nat -> stripOne codes (stripAll fuel codes l) = None.
Proof.
  intros Hne. induction fuel as [|fuel IH]; intros l Hlen; cbn.
  - destruct l; [|cbn in Hlen; lia].
    destruct (stripOne codes []) as [l'|] eqn:Hs; [|reflexivity].
    destruct (stripOne_Some _ _ _ Hs) as (c & Hin & Heq).
    destruct c; [exfalso; exact (Hne _ Hin eq_refl)|discriminate].
  - destruct (stripOne codes l) as [l'|] eqn:Hs; [|exact Hs].
    apply IH. destruct (stripOne_Some _ _ _ Hs) as (c & Hin & ->).
    rewrite length_app in Hlen. specialize (Hne c Hin). destruct c; [contradiction|].
    cbn in Hlen. lia.
Qed.

Lemma bytes_unbytes (l : list nat) :
  Forall (fun n => (n < 256)%nat) l -> bytes (unbytes l) = l.
Proof.
  intros H. unfold bytes, unbytes. rewrite list_ascii_of_string_of_list_ascii.
  induction H as [|n l Hn _ IH]; [reflexivity|].
  cbn. rewrite nat_ascii_embedding by exact Hn. f_equal. exact IH.
Qed.

Lemma bytes_bounded (s : string) : Forall (fun n => (n < 256)%nat) (bytes s).
Proof.
  unfold bytes. induction (list_ascii_of_string s) as [|c l IH]; constructor.
  - apply nat_ascii_bounded.
  - exact IH.
Qed.

Lemma whiteSpace_nonempty c : In c whiteSpace -> c <> [].
Proof.
  unfold whiteSpace. cbn. intros H.
  repeat (destruct H as [<-|H]; [discriminate|]). destruct H.
Qed.

Lemma whiteSpace_rev_nonempty c : In c (List.map (@List.rev nat) whiteSpace) -> c <> [].
Proof.
  unfold whiteSpace. cbn. intros H.
  repeat (destruct H as [<-|H]; [discriminate|]). destruct H.
Qed.

(** [trim] leaves no white space at either end. *)
Lemma trim_clean (s : string) :
  startsWithWhiteSpace (trim s) = false /\ endsWithWhiteSpace (trim s) = false.
Proof.
  unfold startsWithWhiteSpace, endsWithWhiteSpace, trim.
  set (l0 := bytes s).
  set (l1 := stripAll (length l0) whiteSpace l0).
  set (r := stripAll (length l1) (List.map (@List.rev nat) whiteSpace) (List.rev l1)).
  assert (H1 : stripOne whiteSpace l1 = None)
    by (apply stripAll_done; [exact whiteSpace_nonempty|lia]).
  assert (Hr : stripOne (List.map (@List.rev nat) whiteSpace) r = None)
    by (apply stripAll_done; [exact whiteSpace_rev_nonempty|rewrite length_rev; lia]).
  destruct (stripAll_suffix (length l0) whiteSpace l0) as [p0 Hp0]. fold l1 in Hp0.
  destruct (stripAll_suffix (length l1) (List.map (@List.rev nat) whiteSpace) (List.rev l1))
    as [p1 Hp1]. fold r in Hp1.
  assert (Hl1 : l1 = List.rev r ++ List.rev p1).
  { rewrite <- (rev_involutive l1), Hp1, rev_app_distr. reflexivity. }
  assert (Hb : bytes (unbytes (List.rev r)) = List.rev r).
  { apply bytes_unbytes. pose proof (bytes_bounded s) as Hall. fold l0 in Hall.
    rewrite Hp0, Hl1 in Hall. apply Forall_app in Hall as [_ Hall].
    apply Forall_app in Hall as [Hall _]. exact Hall. }
  rewrite Hb, rev_involutive, Hr. split; [|reflexivity].
  destruct (stripOne whiteSpace (List.rev r)) as [y|] eqn:Hs; [|reflexivity].
  destruct (stripOne_Some _ _ _ Hs) as (c & Hin & Heq).
  exfalso. apply (stripOne_None _ _ H1 c (y ++ List.rev p1) Hin).
  rewrite Hl1, Heq, <- app_assoc. reflexivity.
Qed.

(** The text the [try] block sets comes out of [trim]. *)
Lemma tryBlock_trimmed (o : FetchOutcome) (s : State) :
  (exists str ref, tryBlock o s = setVerse {| text := trim str; reference := ref |} s) \/
  (exists e, tryBlock o s = (Throw e, s, [])).
Proof.
  unfold tryBlock.
  do 3 (rewrite bind_liftC;
        match goal with
        | |- context [match ?c with Normal _ => _ | Throw _ => _ end] =>
            destruct c; [|right; eexists; reflexivity]
        end).
  rewrite bind_liftC.
  match goal with |- context [callTrim ?v] =>
    destruct v as [|[| | |str| |]]; cbn [callTrim]; try (right; eexists; reflexivity) end.
  repeat (rewrite bind_liftC;
          match goal with
          | |- context [match ?c with Normal _ => _ | Throw _ => _ end] =>
              destruct c; [|right; eexists; reflexivity]
          end).
  left. do 2 eexists. reflexivity.
Qed.

(** What the [try] block does is decided by the response, not by the state. *)
(** The verse after [fetchVerse] is decided by the response alone. *)
Lemma fetchVerse_indep (net : string -> FetchOutcome) (s s' : State) :
  verse (after (fetchVerse net) s) = verse (after (fetchVerse net) s').
Proof.
  assert (Hrun : forall s0 v,
             tryBlock (net API_URL) (after (setLoading true) s0)
               = setVerse v (after (setLoading true) s0) ->
             verse (after (fetchVerse net) s0) = v).
  { intros s0 v H. unfold after at 1, fetchVerse, fetchVerse_settled.
    unfold bind at 1. unfold after in H. cbn [setLoading fst snd] in H |- *.
    unfold bind at 1, tryCatch. rewrite H. reflexivity. }
  assert (Hcatch : forall s0 e,
             tryBlock (net API_URL) (after (setLoading true) s0)
               = (Throw e, after (setLoading true) s0, []) ->
             verse (after (fetchVerse net) s0) = fallbackVerse).
  { intros s0 e H. unfold after at 1, fetchVerse, fetchVerse_settled.
    unfold bind at 1. unfold after in H. cbn [setLoading fst snd] in H |- *.
    unfold bind at 1, tryCatch. rewrite H. reflexivity. }
  destruct (tryBlock_indep (net API_URL) (after (setLoading true) s)
              (after (setLoading true) s')) as [(v & H1 & H2)|(e & H1 & H2)].
  - rewrite (Hrun s v H1), (Hrun s' v H2). reflexivity.
  - rewrite (Hcatch s e H1), (Hcatch s' e H2). reflexivity.
Qed.

(** X1.  [fetchVerse] always returns, with [loading] cleared; it emits nothing
    and leaves the stage, the store and the pending notifications as they
    were; and the verse it sets depends on the response only, not on the verse
    or the state it replaces. *)
Theorem fetchVerse_only_sets_verse (net : string -> FetchOutcome) (s : State) :
  outcome (fetchVerse net) s = Normal tt /\
  emitted (fetchVerse net) s = [] /\
  loading (after (fetchVerse net) s) = false /\
  stage (after (fetchVerse net) s) = stage s /\
  storage (after (fetchVerse net) s) = storage s /\
  scheduled (after (fetchVerse net) s) = scheduled s /\
  (forall s', verse (after (fetchVerse net) s') = verse (after (fetchVerse net) s)).
Proof.
  split; [|split; [|split; [|split; [|split; [|split]]]]];
    try (intros s'; apply fetchVerse_indep);
    unfold outcome, emitted, after; destruct (fetchVerse_run net s) as [v ->];
    reflexivity.
Qed.

(** The verse after [fetchVerse] is the fallback verse or has a trimmed text. *)
Lemma fetchVerse_trimmed (net : string -> FetchOutcome) (s : State) :
  exists v,
    verse (after (fetchVerse net) s) = v /\
    (v = fallbackVerse \/ exists str, text v = trim str).
Proof.
  unfold after, fetchVerse, fetchVerse_settled.
  unfold bind at 1. cbn [setLoading]. unfold bind at 1. unfold tryCatch.
  match goal with |- context [tryBlock ?o ?s'] =>
    destruct (tryBlock_trimmed o s') as [(str & ref & ->)|[e ->]] end; cbn.
  - eexists. split; [reflexivity|]. right. exists str. reflexivity.
  - eexists. split; [reflexivity|]. left. reflexivity.
Qed.

(** X4.  Whatever the response, the text of the verse after [fetchVerse]
    neither begins nor ends with white space. *)
Theorem fetched_text_is_trimmed (net : string -> FetchOutcome) (s : State) :
  startsWithWhiteSpace (text (verse (after (fetchVerse net) s))) = false /\
  endsWithWhiteSpace (text (verse (after (fetchVerse net) s))) = false.
Proof.
  destruct (fetchVerse_trimmed net s) as (v & -> & [->|[str ->]]).
  - split; reflexivity.
  - apply trim_clean.
Qed.

(** X2.  For a response whose verse record holds a string [text] and a [book],
    a [chapter] and a [verse] that [ToString] can print, [fetchVerse] sets the
    trimmed text and the reference [book chapter:verse]. *)
Theorem fetchVerse_well_formed (net : string -> FetchOutcome) (s : State)
    (fields : list (string * Json)) (t : string) (jb jc jv : Json) (sb sc sv : string) :
  verseRecord (net API_URL) = Some (JObj fields) ->
  ownProperty fields "text" = Some (JStr t) ->
  ownProperty fields "book" = Some jb -> ToStringJson jb = Some sb ->
  ownProperty fields "chapter" = Some jc -> ToStringJson jc = Some sc ->
  ownProperty fields "verse" = Some jv -> ToStringJson jv = Some sv ->
  verse (after (fetchVerse net) s) =
    {| text := trim t; reference := sb +:+ " " +:+ sc +:+ ":" +:+ sv |}.
Proof.
  intros Hrec Ht Hb Hsb Hc Hsc Hv Hsv.
  unfold after, fetchVerse, fetchVerse_settled.
  unfold bind at 1. cbn [setLoading]. unfold bind at 1. unfold tryCatch.
  destruct (net API_URL) as [| |json]; try discriminate.
  destruct json as [| | | | |top]; try discriminate. cbn in Hrec.
  unfold tryBlock. rewrite !bind_liftC. cbn [Get].
  destruct (ownProperty top "random_verse") as [[| | | | |]|]; try discriminate.
  injection Hrec as ->.
  repeat (rewrite bind_liftC; cbn [Get nullish callTrim ToString];
          rewrite ?Ht, ?Hb, ?Hc, ?Hv, ?Hsb, ?Hsc, ?Hsv).
  reflexivity.
Qed.

(** X3.  A verse record whose [text] is present but is neither a string nor
    [null] (a number, a boolean, an array, an object) has no [trim] to call:
    [fetchVerse] ends in its [catch] block and sets the fallback verse. *)
Theorem fetchVerse_text_not_a_string (net : string -> FetchOutcome) (s : State)
    (fields : list (string * Json)) (j : Json) :
  verseRecord (net API_URL) = Some (JObj fields) ->
  ownProperty fields "text" = Some j ->
  j <> JNull -> (forall t, j <> JStr t) ->
  verse (after (fetchVerse net) s) = fallbackVerse.
Proof.
  intros Hrec Ht Hnull Hstr.
  unfold after, fetchVerse, fetchVerse_settled.
  unfold bind at 1. cbn [setLoading]. unfold bind at 1. unfold tryCatch.
  destruct (net API_URL) as [| |json]; try discriminate.
  destruct json as [| | | | |top]; try discriminate. cbn in Hrec.
  unfold tryBlock. rewrite !bind_liftC. cbn [Get].
  destruct (ownProperty top "random_verse") as [[| | | | |]|]; try discriminate.
  injection Hrec as ->.
  rewrite bind_liftC. cbn [Get]. rewrite Ht. rewrite bind_liftC.
  destruct j as [| | |t| |]; try contradiction; try (exfalso; exact (Hstr t eq_refl));
    cbn; reflexivity.
Qed.

(** A reference composed by the [try] block is never empty. *)
Lemma tryBlock_reference (o : FetchOutcome) (s : State) :
  (exists v, tryBlock o s = setVerse v s /\ reference v <> "") \/
  (exists e, tryBlock o s = (Throw e, s, [])).
Proof.
  unfold tryBlock.
  repeat (rewrite bind_liftC;
          match goal with
          | |- context [match ?c with Normal _ => _ | Throw _ => _ end] =>
              destruct c; [|right; eexists; reflexivity]
          end).
  left. eexists. split; [reflexivity|]. cbn [reference].
  intros H. apply (f_equal String.length) in H.
  rewrite !append_length in H. cbn in H. lia.
Qed.

Lemma fetchVerse_reference (net : string -> FetchOutcome) (s : State) :
  exists v,
    verse (after (fetchVerse net) s) = v /\
    (v = fallbackVerse \/ reference v <> "").
Proof.
  unfold after, fetchVerse, fetchVerse_settled.
  unfold bind at 1. cbn [setLoading]. unfold bind at 1. unfold tryCatch.
  match goal with |- context [tryBlock ?o ?s'] =>
    destruct (tryBlock_reference o s') as [(v & -> & Hv)|[e ->]] end; cbn.
  - eexists. split; [reflexivity|]. right. exact Hv.
  - eexists. split; [reflexivity|]. left. reflexivity.
Qed.

(** X17.  After [fetchVerse] the card hides the reference line exactly when
    the verse is the fallback verse: a reference composed from a response
    always holds its separators, so it is never empty. *)
Theorem reference_hidden_for_fallback (net : string -> FetchOutcome) (s : State) :
  referenceShown (verse (after (fetchVerse net) s)) = false <->
  verse (after (fetchVerse net) s) = fallbackVerse.
Proof.
  destruct (fetchVerse_reference net s) as (v & -> & [->|Hv]).
  - split; reflexivity.
  - unfold referenceShown. split.
    + intros H. apply negb_false_iff, String.eqb_eq in H. contradiction.
    + intros ->. exfalso. apply Hv. reflexivity.
Qed.

(** ** Further properties of the scheduling operation *)

(** X6.  A call of the scheduling operation that runs to its end without
    another call interleaved at its awaits, in either build, leaves the verse,
    [loading] and the stage as they were; it leaves the pending notifications
    as they were or leaves exactly one; and in the store it writes no key but
    [LAST_OPEN_KEY]. *)
Theorem schedule_frame (b : Build) (v : Verse) (clk : Reads) (s : State) :
  verse (after (schedule b v clk) s) = verse s /\
  loading (after (schedule b v clk) s) = loading s /\
  stage (after (schedule b v clk) s) = stage s /\
  (scheduled (after (schedule b v clk) s) = scheduled s \/
   length (scheduled (after (schedule b v clk) s)) = 1%nat) /\
  (forall k, k <> LAST_OPEN_KEY ->
     storage (after (schedule b v clk) s) !! k = storage s !! k).
Proof.
  unfold after. rewrite schedule_run. cbv zeta.
  destruct (differs _ _); cbn; repeat split; try (right; reflexivity); try (left; reflexivity).
  - intros k Hk. apply lookup_insert_ne. congruence.
  - intros k Hk. destruct b; [apply lookup_insert_ne; congruence|reflexivity].
Qed.

(** X7.  When ten o'clock local time of the day of the first reading and of
    the next day are not skipped by a change of the clocks and are in the
    range of [Date], the trigger date of the one-shot builds is a valid date
    at exactly 10:00:00.000 local time.  It is ten o'clock of the day when
    that instant is after the comparison reading, hence in the future.
    Otherwise [setDate(getDate() + 1)] moves it to ten o'clock local time of
    the next day: 24 hours later less the change of the offset between the
    two, which is 25 hours when the clocks go back one hour in between.
    When ten o'clock of the day is out of the range of [Date], the trigger
    date is an Invalid Date. *)
Theorem triggerDate_is_ten_local (t1 t2 : Z) :
  let today10 := tenOClockOn t1 in
  (regular tz today10 -> regular tz (today10 + msPerDay) ->
   validTime (UTC tz today10) -> validTime (UTC tz (today10 + msPerDay)) ->
   exists d,
     triggerDateOf t1 t2 = Some d /\
     TimeWithinDay (LocalTime tz d) = MakeTime 10 0 0 0 /\
     (t2 < UTC tz today10 -> d = UTC tz today10 /\ t2 < d) /\
     (UTC tz today10 <= t2 ->
        LocalTime tz d = today10 + msPerDay /\
        d - UTC tz today10 =
          msPerDay - (offsetAtUTC tz d - offsetAtUTC tz (UTC tz today10)))) /\
  (~ validTime (UTC tz today10) -> triggerDateOf t1 t2 = None).
Proof.
  intros today10. split.
  - intros Hreg Hreg' Hv Hv'.
    rewrite (triggerDateOf_local _ _ Hreg Hv Hv'). fold today10.
    eexists. split; [reflexivity|].
    pose proof (LocalTime_UTC _ _ Hreg) as HL.
    pose proof (LocalTime_UTC _ _ Hreg') as HL'.
    destruct (Z.leb_spec (UTC tz today10) t2) as [Hle|Hlt].
    + split; [|split; [lia|]].
      * rewrite HL'. subst today10.
        unfold tenOClockOn, MakeDate, MakeTime, TimeWithinDay, msPerDay, msPerHour,
          msPerMinute, msPerSecond.
        Z.to_euclidean_division_equations; lia.
      * intros _. split; [exact HL'|].
        unfold LocalTime in HL, HL'. lia.
    + split; [|split; [|lia]].
      * rewrite HL. subst today10.
        unfold tenOClockOn, MakeDate, MakeTime, TimeWithinDay, msPerDay, msPerHour,
          msPerMinute, msPerSecond.
        Z.to_euclidean_division_equations; lia.
      * intros _. split; [reflexivity|exact Hlt].
  - intros Hn. unfold triggerDateOf, setHours. fold (tenOClockOn t1). fold today10.
    rewrite (TimeClip_invalid _ Hn). reflexivity.
Qed.

Lemma splitHead_app (sep : ascii) (a b : string) :
  splitHead sep a = a -> splitHead sep (a +:+ b) = a +:+ splitHead sep b.
Proof.
  induction a as [|c a IH]; [reflexivity|].
  change (String c a +:+ b) with (String c (a +:+ b)).
  change (String c a +:+ splitHead sep b) with (String c (a +:+ splitHead sep b)).
  cbn [splitHead]. destruct (Ascii.eqb c sep); [discriminate|].
  intros H. injection H as H. rewrite (IH H). reflexivity.
Qed.

Lemma digit_range (n : Z) : (Z.to_nat (n mod 10) < 10)%nat.
Proof. pose proof (Z.mod_pos_bound n 10 ltac:(lia)). lia. Qed.

Lemma pad_length (w : nat) : forall n, String.length (pad w n) = w.
Proof.
  induction w as [|w IH]; intros n; cbn; [reflexivity|].
  rewrite append_length, IH. cbn. lia.
Qed.

Lemma pad_no_T (w : nat) : forall n, splitHead "T" (pad w n) = pad w n.
Proof.
  induction w as [|w IH]; intros n; cbn [pad]; [reflexivity|].
  rewrite splitHead_app by apply IH. f_equal.
  pose proof (digit_range n) as Hd.
  destruct (Z.to_nat (n mod 10)) as [|k]; [reflexivity|].
  do 9 (destruct k as [|k]; [reflexivity|]). lia.
Qed.

(** [width] digits tell apart the numbers below ten to the [width]. *)
Lemma pad_inj (w : nat) : forall a b,
  0 <= a < 10 ^ Z.of_nat w -> 0 <= b < 10 ^ Z.of_nat w ->
  pad w a = pad w b -> a = b.
Proof.
  induction w as [|w IH]; intros a b Ha Hb H.
  - cbn in Ha, Hb. lia.
  - rewrite Nat2Z.inj_succ, Z.pow_succ_r in Ha, Hb by lia.
    cbn [pad] in H.
    apply append_inj in H as [H1 H2]; [|rewrite !pad_length; reflexivity].
    injection H2 as H2.
    assert (Hd : a mod 10 = b mod 10).
    { pose proof (digit_range a). pose proof (digit_range b).
      apply (f_equal nat_of_ascii) in H2.
      rewrite !nat_ascii_embedding in H2 by lia.
      pose proof (Z.mod_pos_bound a 10 ltac:(lia)).
      pose proof (Z.mod_pos_bound b 10 ltac:(lia)). lia. }
    assert (Hq : a / 10 = b / 10).
    { apply IH; [| |exact H1]; Z.to_euclidean_division_equations; nia. }
    Z.to_euclidean_division_equations. lia.
Qed.

Lemma isoYear_no_T (y : Z) : splitHead "T" (isoYear y) = isoYear y.
Proof.
  unfold isoYear. destruct ((0 <=? y) && (y <=? 9999)); [apply pad_no_T|].
  destruct (y <? 0); rewrite splitHead_app by reflexivity; rewrite pad_no_T; reflexivity.
Qed.

(** [today] is the date part of [toISOString]. *)
Lemma todayOf_isoDate (t : Z) : todayOf t = isoDate (Day t).
Proof.
  unfold todayOf, toISOString, isoDate. destruct (civil (Day t)) as [[y m] d].
  fold (isoYear y).
  rewrite splitHead_app by apply isoYear_no_T. f_equal.
  rewrite (splitHead_app "T" "-") by reflexivity. f_equal.
  rewrite splitHead_app by apply pad_no_T. f_equal.
  rewrite (splitHead_app "T" "-") by reflexivity. f_equal.
  rewrite splitHead_app by apply pad_no_T.
  match goal with |- context [splitHead "T" ("T" +:+ ?x)] =>
    change (splitHead "T" ("T" +:+ x)) with EmptyString end.
  apply append_empty_r.
Qed.

(** Within the range of [Date] the year has at most six digits, the month is
    in 1..12 and the day in 1..31. *)
Lemma civil_bounds (day : Z) :
  - 100000000 <= day <= 100000000 ->
  let '(y, m, d) := civil day in
  - 999999 <= y <= 999999 /\ 1 <= m <= 12 /\ 1 <= d <= 31.
Proof.
  intros Hday. unfold civil.
  set (z := day + 719468).
  assert (Hdoe : 0 <= z mod 146097 < 146097) by (apply Z.mod_pos_bound; lia).
  assert (Hera : - 700 <= z / 146097 <= 700)
    by (subst z; Z.to_euclidean_division_equations; lia).
  destruct (eraDay_bounds _ Hdoe) as [Hy Hd].
  set (era := z / 146097) in *. set (doe := z mod 146097) in *.
  set (yoe := yearOfEra doe) in *. set (doy := dayOfYear doe) in *.
  set (mp := (5 * doy + 2) / 153).
  assert (Hmp : 0 <= mp <= 11) by (subst mp; Z.to_euclidean_division_equations; lia).
  assert (Hdd : 1 <= doy - (153 * mp + 2) / 5 + 1 <= 31)
    by (subst mp; Z.to_euclidean_division_equations; lia).
  repeat split; try lia;
    destruct (Z.ltb_spec mp 10); try lia;
    match goal with |- context [if ?c then 1 else 0] => destruct c end; lia.
Qed.

(** Two days with the same calendar date are the same day. *)
Lemma civil_inj (d1 d2 : Z) : civil d1 = civil d2 -> d1 = d2.
Proof.
  intros H. pose proof (MakeDay_of_civil d1 0) as H1.
  pose proof (MakeDay_of_civil d2 0) as H2. rewrite H in H1.
  destruct (civil d2) as [[y m] d]. lia.
Qed.

Lemma isoYear_length (y : Z) :
  String.length (isoYear y) = if (0 <=? y) && (y <=? 9999) then 4%nat else 7%nat.
Proof.
  unfold isoYear. destruct ((0 <=? y) && (y <=? 9999)); [apply pad_length|].
  destruct (y <? 0); rewrite append_length, pad_length; reflexivity.
Qed.

Lemma isoYear_inj (y1 y2 : Z) :
  - 999999 <= y1 <= 999999 -> - 999999 <= y2 <= 999999 ->
  isoYear y1 = isoYear y2 -> y1 = y2.
Proof.
  intros H1 H2 H. pose proof (f_equal String.length H) as Hl.
  rewrite !isoYear_length in Hl. unfold isoYear in H.
  destruct ((0 <=? y1) && (y1 <=? 9999)) eqn:E1;
    destruct ((0 <=? y2) && (y2 <=? 9999)) eqn:E2; try discriminate.
  - apply (pad_inj 4); [| |exact H]; cbn; lia.
  - destruct (Z.ltb_spec y1 0); destruct (Z.ltb_spec y2 0);
      try (exfalso; revert H; clear; intros H;
           change (String "-" (pad 6 (- y1)) = String "+" (pad 6 y2)) in H
           || change (String "+" (pad 6 y1) = String "-" (pad 6 (- y2))) in H;
           discriminate).
    + apply (append_inj "-" "-") in H as [_ H]; [|reflexivity].
      apply (pad_inj 6) in H; cbn; lia.
    + apply (append_inj "+" "+") in H as [_ H]; [|reflexivity].
      apply (pad_inj 6) in H; cbn; lia.
Qed.

Lemma isoDate_inj (d1 d2 : Z) :
  - 100000000 <= d1 <= 100000000 -> - 100000000 <= d2 <= 100000000 ->
  isoDate d1 = isoDate d2 -> d1 = d2.
Proof.
  intros H1 H2 H. apply civil_inj.
  pose proof (civil_bounds d1 H1) as B1. pose proof (civil_bounds d2 H2) as B2.
  unfold isoDate in H.
  destruct (civil d1) as [[y1 m1] dd1]. destruct (civil d2) as [[y2 m2] dd2].
  destruct B1 as (By1 & Bm1 & Bd1). destruct B2 as (By2 & Bm2 & Bd2).
  pose proof (f_equal String.length H) as Hl.
  rewrite !append_length, !pad_length in Hl. cbn in Hl.
  apply append_inj in H as [Hy H]; [|lia].
  apply (append_inj "-" "-") in H as [_ H]; [|reflexivity].
  apply append_inj in H as [Hm H]; [|rewrite !pad_length; reflexivity].
  apply (append_inj "-" "-") in H as [_ Hd]; [|reflexivity].
  apply isoYear_inj in Hy; [|lia|lia].
  apply (pad_inj 2) in Hm; [|cbn; lia|cbn; lia].
  apply (pad_inj 2) in Hd; [|cbn; lia|cbn; lia].
  congruence.
Qed.

(** Two readings of the clock give the same [today] exactly when they fall on
    the same UTC day. *)
Lemma todayOf_same_day (t1 t2 : Z) :
  - maxTime <= t1 <= maxTime -> - maxTime <= t2 <= maxTime ->
  (todayOf t1 = todayOf t2 <-> Day t1 = Day t2).
Proof.
  intros H1 H2. rewrite !todayOf_isoDate. split; [|intros ->; reflexivity].
  apply isoDate_inj; unfold Day, msPerDay, maxTime in *;
    Z.to_euclidean_division_equations; lia.
Qed.

(** X8.  When the stored date is the [today] of an earlier reading of the
    clock, a call schedules nothing exactly when its own reading falls on the
    same UTC day as that earlier reading; on any other UTC day it cancels and
    schedules (time values within the range of [Date]). *)
Theorem reschedules_when_utc_day_changed
    (b : Build) (v : Verse) (clk : Reads) (s : State) (tprev : Z) :
  - maxTime <= tprev <= maxTime -> - maxTime <= now0 clk <= maxTime ->
  storage s !! LAST_OPEN_KEY = Some (todayOf tprev) ->
  (emitted (schedule b v clk) s = [] <-> Day (now0 clk) = Day tprev).
Proof.
  intros Hp Hn Hst. unfold emitted. rewrite schedule_run. cbv zeta. rewrite Hst.
  destruct (differs (Some (todayOf tprev)) (todayOf (now0 clk))) eqn:Hd; cbn.
  - apply differs_true in Hd. split; [discriminate|].
    intros Hday. exfalso. apply Hd. f_equal.
    apply todayOf_same_day; [exact Hp|exact Hn|]. symmetry. exact Hday.
  - apply differs_false in Hd. injection Hd as Hd. split; [|reflexivity].
    intros _. symmetry. apply todayOf_same_day; [exact Hp|exact Hn|exact Hd].
Qed.

(** ** The callers, run without interleaving *)

(** X9.  Run without interleaving, the mount effect and [handleRefresh] both
    end with the stage ['open'], [loading] cleared, the verse that [fetchVerse]
    sets for the response, and [today] stored under [LAST_OPEN_KEY]. *)
Theorem callers_postcondition (b : Build) (v : Verse)
    (net : string -> FetchOutcome) (clk : Reads) (s : State) :
  (let s' := after (launchEffect b v net clk) s in
   stage s' = StageOpen /\ loading s' = false /\
   verse s' = verse (after (fetchVerse net) s) /\
   storage s' !! LAST_OPEN_KEY = Some (todayOf (now0 clk))) /\
  (let s' := after (handleRefresh b v net clk) s in
   stage s' = StageOpen /\ loading s' = false /\
   verse s' = verse (after (fetchVerse net) s) /\
   storage s' !! LAST_OPEN_KEY = Some (todayOf (now0 clk))).
Proof.
  split; cbv zeta.
  - unfold after at 1 2 3 5. rewrite launchEffect_unfold.
    unfold after. destruct (fetchVerse_run net s) as [v' ->].
    pose proof (schedule_stores_today b v clk
                  {| verse := v'; loading := false; stage := stage s;
                     storage := storage s; scheduled := scheduled s |}) as [Hk _].
    pose proof (schedule_keeps_react_state b v clk
                  {| verse := v'; loading := false; stage := stage s;
                     storage := storage s; scheduled := scheduled s |})
      as (Hv & Hl & _).
    unfold after in Hk, Hv, Hl.
    destruct (schedule b v clk _) as [[r s2] calls]. cbn in *.
    repeat split; assumption.
  - rewrite (fetchVerse_indep net s (after (setStage StageOpen) s)).
    unfold after at 1 2 3 6. rewrite handleRefresh_unfold.
    unfold after. cbn [setStage fst snd].
    match goal with |- context [fetchVerse net ?s'] =>
      destruct (fetchVerse_run net s') as [v' ->] end.
    match goal with |- context [schedule b v clk ?s1] =>
      pose proof (schedule_stores_today b v clk s1) as [Hk _];
      pose proof (schedule_keeps_react_state b v clk s1) as (Hv & Hl & Hs) end.
    unfold after in Hk, Hv, Hl, Hs.
    destruct (schedule b v clk _) as [[r s2] calls]. cbn in *.
    repeat split; assumption.
Qed.

(** ** Further invariants of the event loop *)

(** What a resumed task does to the rest of the state: the request it
    schedules is built from the verse it closes over, it writes no key of the
    store but [LAST_OPEN_KEY], it clears [loading] when it leaves [fetchVerse]
    and leaves it alone otherwise, and it never goes back into [fetchVerse]. *)
Lemma resume_effects (b : Build) (t : Task) (i : Input) (m : M Pc) (s : State) :
  resume b t i = Some m ->
  exists p' s' evs,
    m s = (Normal p', s', evs) /\
    (forall n, In (EvSchedule n) evs -> exists tr, n = request (captured t) tr) /\
    (forall k, k <> LAST_OPEN_KEY -> storage s' !! k = storage s !! k) /\
    loading s' = (if fetching t then false else loading s) /\
    p' <> AwaitFetch.
Proof.
  destruct t as [c v p]. unfold fetching. cbn [caller pc captured].
  destruct p; destruct i; cbn; intros H; try discriminate; injection H as <-.
  - unfold bind at 1. destruct (fetchVerse_settled_run o s) as [v' ->].
    cbn. do 3 eexists. split; [reflexivity|]. cbn.
    repeat split; try discriminate; intros; intuition discriminate.
  - unfold bind at 1, getItem at 1.
    destruct c; (destruct (differs (storage s !! LAST_OPEN_KEY) today); [|destruct b]);
      cbn; do 3 eexists; (split; [reflexivity|]); cbn;
      repeat split; try discriminate; intros; intuition discriminate.
  - cbn. do 3 eexists. split; [reflexivity|]. cbn.
    repeat split; try discriminate; intros; intuition discriminate.
  - cbn. do 3 eexists. split; [reflexivity|]. cbn.
    repeat split; try discriminate.
    intros n [H|[]]. injection H as <-. eexists. reflexivity.
  - destruct c; cbn; do 3 eexists; (split; [reflexivity|]); cbn;
      repeat split; try discriminate;
      try (intros k Hk; apply lookup_insert_ne; congruence);
      intros; intuition discriminate.
Qed.

Lemma LaunchInv_mount (store : gmap string string) (pending : list Notification) :
  LaunchInv (mount store pending).
Proof.
  split; cbn.
  - intros t [= <-]. reflexivity.
  - intros id t n _ [].
Qed.

Lemma LaunchInv_step (b : Build) (a a' : App) (i : Input) :
  Inv a -> LaunchInv a -> step b a i = Some a' -> LaunchInv a'.
Proof.
  intros HI [Hcap Hreq].
  pose proof (inv_fresh a HI) as Hfresh. pose proof (inv_launch a HI) as Hlen.
  assert (Htask : forall id, stepTask b a id i = Some a' -> LaunchInv a').
  { intros id. unfold stepTask.
    destruct (tasks a !! id) as [t|] eqn:Ht; [|discriminate].
    destruct (resume b t i) as [m|] eqn:Hm; [|discriminate].
    destruct (resume_effects b t i m (state a) Hm)
      as (p' & s' & evs & -> & Hev & _).
    intros H. injection H as <-.
    assert (Hid : (id < length (tasks a))%nat) by (eapply lookup_lt_Some; exact Ht).
    split; cbn [state tasks history fontsLoaded].
    - intros t' Hk. destruct (decide (id = 0%nat)) as [->|Hne].
      + rewrite list_lookup_insert_eq in Hk by exact Hid. injection Hk as <-.
        cbn [captured]. exact (Hcap t Ht).
      + rewrite list_lookup_insert_ne in Hk by exact Hne. exact (Hcap t' Hk).
    - intros k t' n Hk. rewrite eventsOf_app. intros Hin.
      apply in_app_or in Hin.
      destruct (decide (id = k)) as [<-|Hne].
      + rewrite list_lookup_insert_eq in Hk by exact Hid. injection Hk as <-.
        cbn [captured]. rewrite eventsOf_own in Hin.
        destruct Hin as [Hin|Hin]; [exact (Hreq id t n Ht Hin)|exact (Hev n Hin)].
      + rewrite list_lookup_insert_ne in Hk by exact Hne.
        rewrite eventsOf_other in Hin by exact Hne.
        destruct Hin as [Hin|[]]. exact (Hreq k t' n Hk Hin). }
  destruct i; cbn [step taskOf]; try (apply Htask).
  - intros H. injection H as <-. split; cbn [state tasks history fontsLoaded].
    + exact Hcap.
    + intros k t n Hk. rewrite eventsOf_app, app_nil_r. exact (Hreq k t n Hk).
  - destruct (fontsLoaded a && lottieMounted (stage (state a))); [|discriminate].
    cbn. intros H. injection H as <-. split; cbn [state tasks history fontsLoaded].
    + exact Hcap.
    + intros k t n Hk. rewrite eventsOf_app, app_nil_r. exact (Hreq k t n Hk).
  - destruct (fontsLoaded a && negb (loading (state a))); [|discriminate].
    cbn. intros H. injection H as <-. split; cbn [state tasks history fontsLoaded].
    + intros t Hk. rewrite lookup_app_l in Hk by exact Hlen. exact (Hcap t Hk).
    + intros k t n Hk. rewrite eventsOf_app. cbn.
      intros Hin. apply in_app_or in Hin.
      destruct (decide (k < length (tasks a))%nat) as [Hlt|Hge].
      * rewrite lookup_app_l in Hk by exact Hlt.
        destruct (decide (length (tasks a) = k)); [lia|].
        destruct Hin as [Hin|[]]. exact (Hreq k t n Hk Hin).
      * rewrite (Hfresh k) in Hin by lia.
        destruct (decide (length (tasks a) = k)); destruct Hin as [[]|Hin];
          [destruct Hin as [Hin|[]]; discriminate|destruct Hin].
Qed.

Lemma LaunchInv_run (b : Build) (inputs : list Input) :
  forall a a', Inv a -> LaunchInv a -> run b a inputs = Some a' -> LaunchInv a'.
Proof.
  induction inputs as [|i rest IH]; intros a a' HI HL; cbn.
  - intros H. injection H as <-. exact HL.
  - destruct (step b a i) as [a1|] eqn:Hs; [|discriminate].
    apply IH; [exact (Inv_step b a a1 i HI Hs)|exact (LaunchInv_step b a a1 i HI HL Hs)].
Qed.

(** X10.  In every execution of the screen, a request scheduled by the launch
    task carries the default body of the locale, an empty reference and the
    title of the locale, whatever verse the fetch has put in the state: the
    launch task closes over the verse of the first render, whose text is
    empty. *)
Theorem launch_request_is_default (b : Build) (a : App) (n : Notification) :
  reachable b a ->
  In (OTask 0%nat (EvSchedule n)) (history a) ->
  body n = NOTIF_BODY /\ data_reference n = "" /\ title n = NOTIF_TITLE.
Proof.
  intros Hr Hin. pose proof (Inv_reachable b a Hr) as HI.
  destruct Hr as (store & pending & inputs & Hrun).
  pose proof (LaunchInv_run b inputs _ _ (Inv_mount store pending)
                (LaunchInv_mount store pending) Hrun) as [Hcap Hreq].
  destruct (lookup_lt_is_Some_2 (tasks a) 0%nat (inv_launch a HI)) as [t Ht].
  apply in_history_task in Hin.
  destruct (Hreq 0%nat t n Ht Hin) as [tr ->]. rewrite (Hcap t Ht).
  repeat split; reflexivity.
Qed.

Lemma filter_insert_count {A} (f : A -> bool) (l : list A) (i : nat) (x y : A) :
  l !! i = Some x ->
  (length (List.filter f (<[i := y]> l)) + (if f x then 1 else 0) =
   length (List.filter f l) + (if f y then 1 else 0))%nat.
Proof.
  revert i. induction l as [|z l IH]; intros [|i] H; cbn in H; try discriminate.
  - injection H as ->. cbn. destruct (f x), (f y); cbn; lia.
  - cbn. specialize (IH i H). destruct (f z); cbn; [f_equal|]; exact IH.
Qed.

Lemma inFlight_step (b : Build) (a a' : App) (i : Input) :
  inFlight a = (if loading (state a) then 1 else 0)%nat ->
  step b a i = Some a' ->
  inFlight a' = (if loading (state a') then 1 else 0)%nat.
Proof.
  unfold inFlight. intros HI.
  assert (Htask : forall id, stepTask b a id i = Some a' ->
            length (List.filter fetching (tasks a')) =
              (if loading (state a') then 1 else 0)%nat).
  { intros id. unfold stepTask.
    destruct (tasks a !! id) as [t|] eqn:Ht; [|discriminate].
    destruct (resume b t i) as [m|] eqn:Hm; [|discriminate].
    destruct (resume_effects b t i m (state a) Hm)
      as (p' & s' & evs & -> & _ & _ & Hl & Hp).
    intros H. injection H as <-. cbn [state tasks].
    pose proof (filter_insert_count fetching (tasks a) id t
                  {| caller := caller t; captured := captured t; pc := p' |} Ht) as Hc.
    assert (Hf : fetching {| caller := caller t; captured := captured t; pc := p' |} = false)
      by (unfold fetching; cbn; destruct p'; try reflexivity; contradiction).
    rewrite Hf in Hc. rewrite Hl.
    destruct (fetching t); [|lia].
    destruct (loading (state a)); lia. }
  destruct i; cbn [step taskOf]; try (apply Htask).
  - intros H. injection H as <-. exact HI.
  - destruct (fontsLoaded a && lottieMounted (stage (state a))); [|discriminate].
    cbn. intros H. injection H as <-. exact HI.
  - destruct (fontsLoaded a) ; [|discriminate].
    destruct (loading (state a)) eqn:Hl; [discriminate|].
    cbn. intros H. injection H as <-. cbn.
    rewrite List.filter_app, length_app. cbn. lia.
Qed.

(** X11.  In every reachable state exactly one request is in flight when
    [loading] is set and none when it is clear: the button, disabled while
    [loading], never starts a fetch while another is in flight. *)
Theorem one_fetch_while_loading (b : Build) (a : App) :
  reachable b a ->
  inFlight a = (if loading (state a) then 1 else 0)%nat.
Proof.
  intros (store & pending & inputs & Hrun).
  assert (H0 : inFlight (mount store pending) =
               (if loading (state (mount store pending)) then 1 else 0)%nat)
    by reflexivity.
  revert Hrun H0. generalize (mount store pending).
  induction inputs as [|i rest IH]; intros a0; cbn.
  - intros [= <-] H0. exact H0.
  - destruct (step b a0 i) as [a1|] eqn:Hs; [|discriminate].
    intros Hrun H0. exact (IH a1 Hrun (inFlight_step b a0 a1 i H0 Hs)).
Qed.

Lemma step_storage (b : Build) (a a' : App) (i : Input) (k : string) :
  k <> LAST_OPEN_KEY -> step b a i = Some a' ->
  storage (state a') !! k = storage (state a) !! k.
Proof.
  intros Hk.
  assert (Htask : forall id, stepTask b a id i = Some a' ->
            storage (state a') !! k = storage (state a) !! k).
  { intros id. unfold stepTask.
    destruct (tasks a !! id) as [t|] eqn:Ht; [|discriminate].
    destruct (resume b t i) as [m|] eqn:Hm; [|discriminate].
    destruct (resume_effects b t i m (state a) Hm)
      as (p' & s' & evs & -> & _ & Hst & _).
    intros H. injection H as <-. cbn [state]. exact (Hst k Hk). }
  destruct i; cbn [step taskOf]; try (apply Htask).
  - intros H. injection H as <-. reflexivity.
  - destruct (fontsLoaded a && lottieMounted (stage (state a))); [|discriminate].
    cbn. intros H. injection H as <-. reflexivity.
  - destruct (fontsLoaded a && negb (loading (state a))); [|discriminate].
    cbn. intros H. injection H as <-. reflexivity.
Qed.

(** X12.  In every execution of the screen the store keeps, under every key
    other than [LAST_OPEN_KEY], what the device held at launch. *)
Theorem only_last_open_date_is_written (b : Build)
    (store : gmap string string) (pending : list Notification)
    (inputs : list Input) (a : App) (k : string) :
  run b (mount store pending) inputs = Some a ->
  k <> LAST_OPEN_KEY ->
  storage (state a) !! k = store !! k.
Proof.
  intros Hrun Hk.
  change (store !! k) with (storage (state (mount store pending)) !! k).
  revert Hrun. generalize (mount store pending).
  induction inputs as [|i rest IH]; intros a0; cbn.
  - intros [= <-]. reflexivity.
  - destruct (step b a0 i) as [a1|] eqn:Hs; [|discriminate].
    intros Hrun. rewrite (IH a1 Hrun). exact (step_storage b a0 a1 i k Hk Hs).
Qed.

(** ** Tracking permission and the ad banner *)

Lemma AdsInv_mount (g : AdsBuild) (os : OS) : AdsInv os (adsMount g os).
Proof.
  destruct g, os; split; cbn; try reflexivity; try discriminate; try lia;
    try (intros _; split; reflexivity); try contradiction; try tauto.
Qed.

Lemma setAttStatus_inv (os : OS) (a : Ads) (v : PermissionStatus) :
  AdsInv os a -> attPc a <> AttDone -> (os <> IOS -> False) ->
  AdsInv os (setAttStatus v AttDone a).
Proof.
  intros [Hinit Hpend Hdone Hfirst Honce Hos] Hpc Hios.
  assert (Hu : attStatus a = Undetermined).
  { destruct (attStatus a); try reflexivity; exfalso; apply Hpc, Hdone; reflexivity. }
  assert (Hp : effectPending a = false).
  { destruct (effectPending a); [|reflexivity].
    specialize (Hpend eq_refl). rewrite Hu in Hpend. discriminate. }
  split; cbn; try assumption; try discriminate; try tauto.
  - rewrite Hu, Hp in *. cbn in Hinit. rewrite Hinit. destruct v; reflexivity.
  - rewrite Hu, Hp. destruct v; cbn; intros H; try reflexivity; discriminate.
Qed.

Lemma AdsInv_step (g : AdsBuild) (os : OS) (a a' : Ads) (i : AdsInput) :
  AdsInv os a -> adsStep g a i = Some a' -> AdsInv os a'.
Proof.
  intros HI. pose proof HI as [Hinit Hpend Hdone Hfirst Honce Hos]. unfold adsStep.
  assert (Hios : attPc a <> AttDone -> os <> IOS -> False)
    by (intros Hpc Hne; destruct (Hos Hne); contradiction).
  assert (Hundet : attPc a <> AttDone -> determined (attStatus a) = false).
  { intros Hpc. destruct (determined (attStatus a)); [|reflexivity].
    exfalso. apply Hpc, Hdone. reflexivity. }
  assert (Hbanner : forall v, AdsInv os (setShowBanner v a))
    by (intros v; split; cbn; assumption).
  assert (Heffect : effectPending a = true -> AdsInv os (initEffect a)).
  { intros Hp. specialize (Hpend Hp). split; cbn; try assumption; try discriminate.
    rewrite Hpend, Hp in *. cbn in *. rewrite Hinit. reflexivity. }
  destruct i; destruct (attPc a) eqn:Hpc; try discriminate;
    try (destruct (bannerMounted g a); [|discriminate];
         intros H; injection H as <-; apply Hbanner);
    try (destruct (effectPending a) eqn:Hp; [|discriminate];
         intros H; injection H as <-; apply Heffect; reflexivity).
  - (* getTrackingPermissionsAsync resolved *)
    destruct (bool_decide_reflect (status = Undetermined)) as [->|Hst];
      intros H; injection H as <-.
    + split; cbn; try assumption; try discriminate.
      * intros Hd. rewrite Hundet in Hd by discriminate. discriminate.
      * rewrite Hfirst by reflexivity. lia.
      * intros Hne. exfalso. apply Hios; [discriminate|exact Hne].
    + apply setAttStatus_inv; try assumption; try (rewrite Hpc; discriminate).
      apply Hios. discriminate.
  - intros H. injection H as <-.
    split; cbn; try assumption; try reflexivity; try discriminate.
    intros Hne. exfalso. apply Hios; [discriminate|exact Hne].
  - (* requestTrackingPermissionsAsync resolved *)
    intros H. injection H as <-.
    apply setAttStatus_inv; try assumption; try (rewrite Hpc; discriminate).
    apply Hios. discriminate.
  - intros H. injection H as <-.
    split; cbn; try assumption; try reflexivity; try discriminate.
    intros Hne. exfalso. apply Hios; [discriminate|exact Hne].
Qed.

Lemma AdsInv_run (g : AdsBuild) (os : OS) (inputs : list AdsInput) :
  forall a a', AdsInv os a -> adsRun g a inputs = Some a' -> AdsInv os a'.
Proof.
  induction inputs as [|i rest IH]; intros a a' HI; cbn.
  - intros [= <-]. exact HI.
  - destruct (adsStep g a i) as [a1|] eqn:Hs; [|discriminate].
    apply IH. exact (AdsInv_step g os a a1 i HI Hs).
Qed.

(** Once the tracking effect has ended, the status and the number of prompts
    stay as they are. *)
Lemma adsRun_settled (g : AdsBuild) (inputs : list AdsInput) :
  forall a a', attPc a = AttDone -> adsRun g a inputs = Some a' ->
    attStatus a' = attStatus a /\ attPrompts a' = attPrompts a.
Proof.
  induction inputs as [|i rest IH]; intros a a' Hpc; cbn.
  - intros [= <-]. split; reflexivity.
  - destruct (adsStep g a i) as [a1|] eqn:Hs; [|discriminate].
    intros Hrun.
    assert (H1 : attPc a1 = AttDone /\ attStatus a1 = attStatus a /\
                 attPrompts a1 = attPrompts a).
    { unfold adsStep in Hs. rewrite Hpc in Hs.
      destruct i; try discriminate;
        [destruct (effectPending a) | destruct (bannerMounted g a)
         | destruct (bannerMounted g a)]; try discriminate;
        injection Hs as <-; cbn; repeat split; assumption. }
    destruct H1 as (Hpc1 & Hst & Hpr).
    destruct (IH a1 a' Hpc1 Hrun) as [H2 H3]. split; congruence.
Qed.


(** X15.  [requestTrackingPermissionsAsync()] is called at most once in an
    execution, never off iOS, and never in the build of [App.js]. *)
Theorem tracking_prompt_at_most_once (g : AdsBuild) (os : OS)
    (inputs : list AdsInput) (a : Ads) :
  adsRun g (adsMount g os) inputs = Some a ->
  (attPrompts a <= 1)%nat /\
  (os <> IOS -> attPrompts a = 0%nat) /\
  (g = Ungated -> attPrompts a = 0%nat).
Proof.
  intros Hrun.
  pose proof (AdsInv_run g os inputs _ _ (AdsInv_mount g os) Hrun) as [_ _ _ _ Honce Hos].
  split; [exact Honce|]. split; [intros Hne; apply Hos; exact Hne|].
  intros ->.
  destruct (adsRun_settled Ungated inputs (adsMount Ungated os) a eq_refl Hrun) as [_ ->].
  reflexivity.
Qed.

End App.

(** * Concrete runs *)

(** C1 on the scenario [lastOpen = "2024-01-01"], [today = "2024-01-01"]
    (here 2024-01-02 on both sides): nothing scheduled, the store as it was. *)
Lemma last_open_date_is_today_witness :
  storage (opened (Some "2024-01-02") genesis) !! LAST_OPEN_KEY = Some "2024-01-02" /\
  storage (after (schedule english utc OneShot genesis (at_ jan2_0900))
                 (opened (Some "2024-01-02") genesis))
    = storage (opened (Some "2024-01-02") genesis) /\
  emitted (schedule english utc Repeating genesis (at_ jan2_0900))
          (opened (Some "2024-01-02") genesis) = [].
Proof.
  split; [reflexivity|]. split.
  - apply (last_open_date_is_today english utc OneShot genesis (at_ jan2_0900)
             (opened (Some "2024-01-02") genesis)).
    reflexivity.
  - apply (last_open_date_is_today english utc Repeating genesis (at_ jan2_0900)
             (opened (Some "2024-01-02") genesis)).
    reflexivity.
Defined.

(** C2: [{"random_verse": {}}] has a verse record that lacks every expected
    field, and the verse it yields has an empty text and a reference that is
    not empty. *)
Lemma bare_record_is_not_replaced :
  verse (after (fetchVerse english (fun _ => bareRecord)) (opened None genesis))
    = {| text := ""; reference := "undefined undefined:undefined" |} /\
  ~ (text (verse (after (fetchVerse english (fun _ => bareRecord))
                        (opened None genesis))) <> "" /\
     reference (verse (after (fetchVerse english (fun _ => bareRecord))
                             (opened None genesis))) = "").
Proof.
  split; [reflexivity|]. intros [H _]. apply H. reflexivity.
Qed.

(** C2 on a failed request, on a body without [random_verse], and on the
    bare record. *)
Lemma fetchVerse_fallback_witness :
  (verse (after (fetchVerse english (fun _ => NetworkError)) (opened None genesis))
     = fallbackVerse /\
   verse (after (fetchVerse portuguese (fun _ => JsonBody (JObj [])))
                (opened None genesis))
     = fallbackVerse) /\
  text (verse (after (fetchVerse english (fun _ => bareRecord))
                     (opened None genesis))) = "".
Proof.
  split; [split|].
  - apply (fetchVerse_fallback english (fun _ => NetworkError) (opened None genesis)).
    reflexivity.
  - apply (fetchVerse_fallback portuguese (fun _ => JsonBody (JObj []))
             (opened None genesis)).
    reflexivity.
  - apply (proj2 (fetchVerse_fallback english (fun _ => bareRecord)
                    (opened None genesis)) []); reflexivity.
Defined.



(** C4: on 2024-01-02 the button is pressed two seconds after the launch,
    while the scheduling of the launch is under way: two requests end up
    pending. *)
Lemma overlapping_calls_schedule_twice_witness :
  match run english utc OneShot (mount ∅ [])
          (overlap john316 NetworkError (at_ jan2_0900) (at_ (jan2_0900 + 2000))) with
  | Some a => length (scheduled (state a)) = 2%nat
  | None => False
  end.
Proof.
  destruct (overlapping_calls_schedule_twice english utc OneShot ∅ []
              john316 NetworkError (at_ jan2_0900) (at_ (jan2_0900 + 2000)))
    as (a & n0 & n1 & Hrun & Hs & _).
  - vm_compute. discriminate.
  - reflexivity.
  - rewrite Hrun, Hs. reflexivity.
Defined.

(** X18: twice on 2024-01-02, at 09:00 and at 15:00, from an empty store. *)
Lemma schedule_idempotent_within_day_witness :
  todayOf jan2_0900 = todayOf jan2_1500 /\
  emitted (schedule english utc OneShot genesis (at_ jan2_1500))
          (after (schedule english utc OneShot genesis (at_ jan2_0900))
                 (opened None genesis)) = [].
Proof.
  split; [reflexivity|].
  apply (schedule_idempotent_within_day english utc OneShot genesis genesis
           (at_ jan2_0900) (at_ jan2_1500) (opened None genesis)).
  reflexivity.
Defined.

(** C5: on 2024-01-02 and on 2024-01-03, after a last opening on 2024-01-01. *)
Lemma schedule_once_per_day_witness :
  scheduled (after (schedule english utc OneShot genesis (at_ jan3_0900))
                   (after (schedule english utc OneShot genesis (at_ jan2_0900))
                          (opened (Some "2024-01-01") genesis)))
    = [request english genesis (DateTrigger (Some 1704276000000) "default")].
Proof.
  apply (schedule_once_per_day english utc OneShot genesis genesis
           (at_ jan2_0900) (at_ jan3_0900) (opened (Some "2024-01-01") genesis)).
  - vm_compute. discriminate.
  - vm_compute. discriminate.
Defined.

(** C6 on an English device: launched on 2024-01-02 it receives John 3:16 and
    schedules with the default body; refreshed on 2024-01-03 it receives
    Genesis 1:1 and schedules with the text of John 3:16. *)
Lemma scheduled_body_is_stale_witness :
  exists a1 a2 n0 n1,
    run english utc OneShot (mount ∅ []) (firstLaunch john316 (at_ jan2_0900)) = Some a1 /\
    text (verse (state a1)) = "For God so loved the world" /\
    scheduled (state a1) = [n0] /\
    body n0 = "Tap to open the app and read a verse!" /\
    run english utc OneShot a1 (laterRefresh genesis11 (at_ jan3_0900)) = Some a2 /\
    text (verse (state a2)) = "In the beginning" /\
    scheduled (state a2) = [n1] /\
    body n1 = "For God so loved the world".
Proof.
  destruct (scheduled_body_is_stale english utc OneShot ∅ [] john316 genesis11
              (at_ jan2_0900) (at_ jan3_0900))
    as (a1 & a2 & n0 & n1 & H1 & Hv1 & Hs1 & Hb1 & H2 & Hv2 & Hs2 & Hb2).
  - vm_compute. discriminate.
  - vm_compute. discriminate.
  - exists a1, a2, n0, n1.
    split; [exact H1|]. split; [rewrite Hv1; reflexivity|].
    split; [exact Hs1|]. split; [exact Hb1|].
    split; [exact H2|]. split; [rewrite Hv2; reflexivity|].
    split; [exact Hs2|]. exact Hb2.
Defined.

(** C7.  On a device set to English the request fails: [fetchVerse] returns,
    the reference is empty, and the text is the Portuguese message, the same
    as on a Portuguese device, while the button and the notification are in
    English. *)
Theorem error_text_is_not_localised :
  isPt english = false /\
  BUTTON_LABEL english = "New Verse" /\
  NOTIF_BODY english = "Tap to open the app and read a verse!" /\
  outcome (fetchVerse english (fun _ => NetworkError)) (opened None genesis) = Normal tt /\
  verse (after (fetchVerse english (fun _ => NetworkError)) (opened None genesis))
    = {| text := "Erro ao obter versículo."; reference := "" |} /\
  verse (after (fetchVerse english (fun _ => NonJsonBody)) (opened None genesis))
    = verse (after (fetchVerse portuguese (fun _ => NonJsonBody)) (opened None genesis)).
Proof.
  repeat split; reflexivity.
Qed.

(** C8 on [session]: the stage ends on ['display'], after the animation
    finished. *)
Lemma display_only_after_animation_finish_witness :
  match run english utc OneShot (mount ∅ []) session with
  | Some a => stage (state a) = StageDisplay /\ In OAnimationFinish (history a)
  | None => False
  end.
Proof.
  assert (Hs : option_map (fun a => stage (state a))
                 (run english utc OneShot (mount ∅ []) session) = Some StageDisplay)
    by (vm_compute; reflexivity).
  destruct (run english utc OneShot (mount ∅ []) session) as [a|] eqn:H;
    [|discriminate].
  injection Hs as Hs. split; [exact Hs|].
  apply (display_only_after_animation_finish english utc OneShot a).
  - exists ∅, [], session. exact H.
  - exact Hs.
Defined.

(** C9 on [session]: the launch task has finished; it has recorded the return
    of the fetch, the calls of the scheduling operation, its return, and the
    stage set to ['open'], in this order. *)
Lemma control_flow_order_witness :
  match run english utc OneShot (mount ∅ []) session with
  | Some a =>
      exists calls,
        schedulerCalls calls /\
        eventsOf 0 (history a) =
          EvFetchVerseReturned :: calls ++ [EvSchedulerReturned; EvSetStage StageOpen]
  | None => False
  end.
Proof.
  assert (Hs : option_map (fun a => tasks a !! 0%nat)
                 (run english utc OneShot (mount ∅ []) session)
               = Some (Some {| caller := Launch; captured := initialVerse;
                               pc := Finished |}))
    by (vm_compute; reflexivity).
  destruct (run english utc OneShot (mount ∅ []) session) as [a|] eqn:H;
    [|discriminate].
  injection Hs as Hs.
  destruct (control_flow_order english utc OneShot) as (_ & _ & Hall).
  destruct (Hall a 0%nat _ (ex_intro _ ∅ (ex_intro _ [] (ex_intro _ session H))) Hs)
    as (_ & calls & Hc & _ & Hdone).
  exists calls. split; [exact Hc|]. exact (Hdone eq_refl).
Defined.

(** C10 on [session]. *)
Lemma stage_is_never_turn_witness :
  match run english utc OneShot (mount ∅ []) session with
  | Some a => stage (state a) <> StageTurn
  | None => False
  end.
Proof.
  destruct (run english utc OneShot (mount ∅ []) session) as [a|] eqn:H.
  - apply (stage_is_never_turn english utc OneShot a).
    exists ∅, [], session. exact H.
  - vm_compute in H. discriminate.
Defined.

(** ** The built-ins and the model on sample values *)

Example toISOString_sample :
  toISOString jan2_0900 = "2024-01-02T09:00:00.000Z" /\
  toISOString (-1) = "1969-12-31T23:59:59.999Z" /\
  toISOString 951782400000 = "2000-02-29T00:00:00.000Z" /\
  toISOString 253402300800000 = "+010000-01-01T00:00:00.000Z".
Proof. repeat split; reflexivity. Qed.

Example todayOf_sample : todayOf jan2_0900 = "2024-01-02".
Proof. reflexivity. Qed.

(** The last day of a month and of a leap February roll over. *)
Example setDate_rolls_over :
  option_map toISOString (setDate utc 1706659200000 (getDate utc 1706659200000 + 1))
    = Some "2024-02-01T00:00:00.000Z" /\
  option_map toISOString (setDate utc 1709164800000 (getDate utc 1709164800000 + 1))
    = Some "2024-03-01T00:00:00.000Z".
Proof. repeat split; reflexivity. Qed.

(** At 09:00 UTC on a device five hours behind UTC it is 04:00: ten o'clock of
    that local day is 15:00 UTC. *)
Example triggerDateOf_sample :
  option_map toISOString (triggerDateOf (fixedZone (-18000000)) jan2_0900 jan2_0900)
    = Some "2024-01-02T15:00:00.000Z".
Proof. reflexivity. Qed.

(** In New York at 10:00 on 2024-11-02 the trigger date is 10:00 on
    2024-11-03, after the clocks went back: 15:00 UTC, 25 hours later.  On
    the last day of the range of [Date] it is an Invalid Date. *)
Example triggerDateOf_clock_change :
  triggerDateOf newYork nov2_1400 nov2_1400 = Some (nov2_1400 + 25 * msPerHour) /\
  option_map toISOString (triggerDateOf newYork nov2_1400 nov2_1400)
    = Some "2024-11-03T15:00:00.000Z" /\
  triggerDateOf utc maxTime maxTime = None.
Proof. repeat split; reflexivity. Qed.

Example trim_sample :
  trim (String (ascii_of_nat 9) " For God so loved the world " +:+ String (ascii_of_nat 10) "")
    = "For God so loved the world".
Proof. reflexivity. Qed.

Example ToString_sample :
  ToString (VJson (JArr [JNum "1"; JNull; JArr [JStr "a"; JStr "b"]; JBool true]))
    = Normal "1,,a,b,true" /\
  ToString (VJson (JObj [("book", JStr "John")])) = Normal "[object Object]" /\
  ToString (VJson (JObj [("toString", JNum "1")])) = Throw TypeError.
Proof. repeat split; reflexivity. Qed.

Example fetchVerse_sample :
  verse (after (fetchVerse english (fun _ => john316)) (opened None genesis))
    = {| text := "For God so loved the world"; reference := "John 3:16" |} /\
  API_URL english = "https://bible-api.com/data/web/random" /\
  API_URL portuguese = "https://bible-api.com/data/almeida/random".
Proof. repeat split; reflexivity. Qed.

(** In [session] the launch task schedules its request after the fetch has
    put John 3:16 in the state, and the request carries the default body. *)
Example session_launch_request :
  option_map (fun a => List.map body (scheduled (state a)))
    (run english utc OneShot (mount ∅ [])
       [FontsLoaded; FetchSettled 0 john316 jan2_0900;
        GetItemResolved 0 jan2_0900 jan2_0900; CancelResolved 0;
        ScheduleResolved 0])
    = Some ["Tap to open the app and read a verse!"].
Proof. vm_compute. reflexivity. Qed.

(** * Further properties on concrete inputs *)

(** X5.  Only the first locale of the device is consulted: the Portuguese
    strings and the [almeida] endpoint are chosen exactly when its language
    code begins with [pt]; a device without locales, or whose first locale has
    an empty language code, gets the English strings and the [web] endpoint. *)
Theorem first_locale_decides (l : Locale) (rest : list Locale) :
  isPt (l :: rest) = String.prefix "pt" (languageCode l) /\
  API_URL (l :: rest) =
    (if String.prefix "pt" (languageCode l)
     then "https://bible-api.com/data/almeida/random"
     else "https://bible-api.com/data/web/random") /\
  BUTTON_LABEL (l :: rest) = BUTTON_LABEL [l] /\
  NOTIF_TITLE (l :: rest) = NOTIF_TITLE [l] /\
  NOTIF_BODY (l :: rest) = NOTIF_BODY [l] /\
  isPt [] = false /\
  API_URL [] = "https://bible-api.com/data/web/random".
Proof.
  assert (H : isPt (l :: rest) = String.prefix "pt" (languageCode l)).
  { unfold isPt, deviceLang.
    destruct (decide (languageCode l = "")) as [->|_]; reflexivity. }
  split; [exact H|]. split.
  - unfold API_URL, TRANSLATION_ID. rewrite H.
    destruct (String.prefix "pt" (languageCode l)); reflexivity.
  - repeat split; reflexivity.
Qed.

(** X2 on the John 3:16 response. *)
Lemma fetchVerse_well_formed_witness :
  verse (after (fetchVerse english (fun _ => john316)) (opened None genesis))
    = {| text := "For God so loved the world"; reference := "John 3:16" |}.
Proof.
  exact (fetchVerse_well_formed english (fun _ => john316) (opened None genesis)
           [("book", JStr "John"); ("chapter", JNum "3"); ("verse", JNum "16");
            ("text", JStr "For God so loved the world ")]
           "For God so loved the world " (JStr "John") (JNum "3") (JNum "16")
           "John" "3" "16"
           eq_refl eq_refl eq_refl eq_refl eq_refl eq_refl eq_refl eq_refl).
Defined.

(** X3 on [{"random_verse": {"text": 5}}]. *)
Lemma fetchVerse_text_not_a_string_witness :
  verse (after (fetchVerse english
                  (fun _ => JsonBody (JObj [("random_verse",
                                             JObj [("text", JNum "5")])])))
               (opened None genesis))
    = fallbackVerse.
Proof.
  apply (fetchVerse_text_not_a_string english _ (opened None genesis)
           [("text", JNum "5")] (JNum "5")).
  - reflexivity.
  - reflexivity.
  - discriminate.
  - intros t. discriminate.
Defined.

(** X6: a key of another feature survives a call that schedules. *)
Lemma schedule_frame_witness :
  storage (after (schedule english utc Repeating genesis (at_ jan2_0900))
                 {| verse := genesis; loading := false; stage := StageOpen;
                    storage := {[ "@app:theme" := "dark" ]}; scheduled := [] |})
    !! "@app:theme" = Some "dark".
Proof.
  rewrite (proj2 (proj2 (proj2 (proj2
             (schedule_frame english utc Repeating genesis (at_ jan2_0900)
                {| verse := genesis; loading := false; stage := StageOpen;
                   storage := {[ "@app:theme" := "dark" ]}; scheduled := [] |}))))
             "@app:theme").
  - reflexivity.
  - discriminate.
Defined.

(** X7 in New York at 10:00 on 2024-11-02: ten o'clock of the next day is 25
    hours after ten o'clock of the day. *)
Lemma triggerDate_is_ten_local_witness :
  exists d,
    triggerDateOf newYork nov2_1400 nov2_1400 = Some d /\
    d - UTC newYork (tenOClockOn newYork nov2_1400) = 25 * msPerHour.
Proof.
  destruct (proj1 (triggerDate_is_ten_local newYork nov2_1400 nov2_1400))
    as (d & Hd & _ & _ & Hnext).
  - reflexivity.
  - reflexivity.
  - split; vm_compute; discriminate.
  - split; vm_compute; discriminate.
  - exists d. split; [exact Hd|].
    destruct Hnext as [_ Hel]; [vm_compute; discriminate|].
    rewrite Hel. vm_compute in Hd. injection Hd as <-. reflexivity.
Defined.

(** X8: stored at 09:00 on 2024-01-02, a call at 15:00 the same UTC day
    schedules nothing. *)
Lemma reschedules_when_utc_day_changed_witness :
  emitted (schedule english utc OneShot genesis (at_ jan2_1500))
          (opened (Some "2024-01-02") genesis) = [].
Proof.
  apply (reschedules_when_utc_day_changed english utc OneShot genesis (at_ jan2_1500)
           (opened (Some "2024-01-02") genesis) jan2_0900).
  - cbv [maxTime jan2_0900]. lia.
  - cbv [maxTime at_ now0 jan2_1500]. lia.
  - reflexivity.
  - reflexivity.
Defined.

(** X10 on [session]: the request of the launch task has the default body,
    though the fetch had put John 3:16 in the state. *)
Lemma launch_request_is_default_witness :
  match run english utc OneShot (mount ∅ []) session with
  | Some a =>
      body (request english initialVerse (DateTrigger (Some 1704189600000) "default"))
        = "Tap to open the app and read a verse!"
  | None => False
  end.
Proof.
  assert (Hh : exists h,
             option_map history (run english utc OneShot (mount ∅ []) session) = Some h /\
             In (OTask 0%nat
                   (EvSchedule (request english initialVerse
                                  (DateTrigger (Some 1704189600000) "default")))) h).
  { eexists. split; [vm_compute; reflexivity|].
    do 5 right. left. reflexivity. }
  destruct Hh as (h & Hh & Hin).
  destruct (run english utc OneShot (mount ∅ []) session) as [a|] eqn:H;
    [|discriminate].
  injection Hh as <-.
  apply (launch_request_is_default english utc OneShot a).
  - exists ∅, [], session. exact H.
  - exact Hin.
Defined.

(** X11 on [session]. *)
Lemma one_fetch_while_loading_witness :
  match run english utc OneShot (mount ∅ []) session with
  | Some a => inFlight a = (if loading (state a) then 1 else 0)%nat
  | None => False
  end.
Proof.
  destruct (run english utc OneShot (mount ∅ []) session) as [a|] eqn:H.
  - apply (one_fetch_while_loading english utc OneShot a).
    exists ∅, [], session. exact H.
  - vm_compute in H. discriminate.
Defined.

(** X12 on [session], over a store that holds a key of another feature. *)
Lemma only_last_open_date_is_written_witness :
  match run english utc OneShot (mount {[ "@app:theme" := "dark" ]} []) session with
  | Some a => storage (state a) !! "@app:theme" = Some "dark"
  | None => False
  end.
Proof.
  destruct (run english utc OneShot (mount {[ "@app:theme" := "dark" ]} []) session)
    as [a|] eqn:H.
  - rewrite (only_last_open_date_is_written english utc OneShot
               {[ "@app:theme" := "dark" ]} [] session a "@app:theme" H).
    + reflexivity.
    + discriminate.
  - vm_compute in H. discriminate.
Defined.


(** X15 on the same execution. *)
Lemma tracking_prompt_at_most_once_witness :
  match adsRun Gated (adsMount Gated IOS)
          [AttGetResolved Undetermined; AttRequestResolved Denied;
           InitEffectRuns; AdLoaded] with
  | Some a => (attPrompts a <= 1)%nat
  | None => False
  end.
Proof.
  exact (proj1 (tracking_prompt_at_most_once Gated IOS
                  [AttGetResolved Undetermined; AttRequestResolved Denied;
                   InitEffectRuns; AdLoaded]
                  _ eq_refl)).
Defined.
